(** * physics-is-fun: light paths near a black hole

    A shallow embedding of the two programs of the repository:

    - [sideview.py]: the split-screen particle integrator ([Photon],
      [SimulationState], the frame loop of [main]);
    - [black_hole_raytracing.py]: the physics loop of the fragment shader,
      its camera set-up and fragment colour, and the window's event loop.

    Numbers.  Both programs compute with binary floating point.  The
    embedding reads every number as a real ([R]): rounding, overflow,
    infinities and NaN are outside the model.  What Python raises on real
    arguments is kept: [/] raises [ZeroDivisionError] on a zero divisor and
    [math.sqrt] raises [ValueError] on a negative argument. *)

From Stdlib Require Import Reals Lra Lia List Bool Arith.
Import ListNotations.
Open Scope R_scope.

(** ** Python arithmetic that can raise *)

Module Py.

Inductive exn : Type :=
| ZeroDivisionError
| ValueError.

Inductive result (A : Type) : Type :=
| Ok (a : A)
| Err (e : exn).
Arguments Ok {A} a.
Arguments Err {A} e.

Definition bind {A B : Type} (m : result A) (k : A -> result B) : result B :=
  match m with
  | Ok a => k a
  | Err e => Err e
  end.

(** [a / b] *)
Definition div (a b : R) : result R :=
  if Req_dec_T b 0 then Err ZeroDivisionError else Ok (a / b).

(** [math.sqrt(x)] *)
Definition sqrt (x : R) : result R :=
  if Rlt_dec x 0 then Err ValueError else Ok (R_sqrt.sqrt x).

(** [a != b] *)
Definition neq (a b : R) : bool :=
  if Req_dec_T a b then false else true.

End Py.

Import Py.

Declare Scope py_scope.
Delimit Scope py_scope with py.
Notation "x <- m ;; k" := (bind m (fun x => k))
  (at level 61, m at next level, right associativity) : py_scope.
Notation "' pat <- m ;; k" := (bind m (fun x => match x with pat => k end))
  (at level 61, pat pattern, m at next level, right associativity) : py_scope.
Open Scope py_scope.

(** ** sideview.py *)

Module Sideview.

(** Configuration (lines 6-15). *)
Definition WIDTH : R := 800.
Definition HEIGHT : R := 800.
Definition G : R := 1.0.
Definition C : R := 1.0.
Definition DT : R := 0.5.
Definition TRAIL_LENGTH : nat := 100.
Definition SPAWN_RATE : nat := 5.

(** [class Photon] (lines 37-49).  [vel] is the two-element list
    [[vx, vy]], only ever indexed at 0 and 1. *)
Record Photon : Type := mkPhoton {
  pos : R * R;
  x_raw : R;
  y_raw : R;
  vel : R * R;
  history : list (R * R);
  active : bool;
  is_kerr : bool;
  hole_spin : R;
  dead : bool
}.

Definition set_history (self : Photon) (h : list (R * R)) : Photon :=
  mkPhoton (pos self) (x_raw self) (y_raw self) (vel self) h
           (active self) (is_kerr self) (hole_spin self) (dead self).

Definition set_active (self : Photon) (b : bool) : Photon :=
  mkPhoton (pos self) (x_raw self) (y_raw self) (vel self) (history self)
           b (is_kerr self) (hole_spin self) (dead self).

Definition set_dead (self : Photon) (b : bool) : Photon :=
  mkPhoton (pos self) (x_raw self) (y_raw self) (vel self) (history self)
           (active self) (is_kerr self) (hole_spin self) b.

Definition set_hole_spin (self : Photon) (s : R) : Photon :=
  mkPhoton (pos self) (x_raw self) (y_raw self) (vel self) (history self)
           (active self) (is_kerr self) s (dead self).

Definition set_is_kerr (self : Photon) (b : bool) : Photon :=
  mkPhoton (pos self) (x_raw self) (y_raw self) (vel self) (history self)
           (active self) b (hole_spin self) (dead self).

(** The three assignments of lines 119-123: [vel], [x_raw], [y_raw]. *)
Definition set_motion (self : Photon) (v : R * R) (x y : R) : Photon :=
  mkPhoton (pos self) x y v (history self)
           (active self) (is_kerr self) (hole_spin self) (dead self).

(** [Photon.__init__] (lines 38-49). *)
Definition Photon_init (y screen_width : R) (kerr : bool) (spin : R) : Photon :=
  {| pos := (0, y);
     x_raw := - screen_width / 2;
     y_raw := y;
     vel := (4.0, 0.0);
     history := [];
     active := true;
     is_kerr := kerr;
     hole_spin := spin;
     dead := false |}.

(** What a call leaves behind: the object after a normal return, or the
    object as it stands when an exception leaves the method. *)
Inductive outcome : Type :=
| Returned (self : Photon)
| Raised (e : exn) (self : Photon).

Definition final (o : outcome) : Photon :=
  match o with
  | Returned self => self
  | Raised _ self => self
  end.

(** Lines 55-58: append the offset position, then drop the oldest entry
    when the list grew past [TRAIL_LENGTH] ([pop(0)]). *)
Definition record_history (self : Photon) (center_x center_y : R) : Photon :=
  let h := history self ++ [(x_raw self + center_x, y_raw self + center_y)] in
  set_history self (if (TRAIL_LENGTH <? length h)%nat then tl h else h).

(** Lines 98-99: the alignment of the orbit with the spin. *)
Definition alignment_of (Lz spin : R) : result R :=
  if neq Lz 0 then
    sl <- div Lz (Rabs Lz) ;;
    ss <- (if neq spin 0 then div spin (Rabs spin) else Ok 0) ;;
    Ok (sl * ss)
  else Ok 0.

(** Lines 74-116, the "physics engine": the acceleration [(ax, ay)] from
    the locals [dx], [dy], [r2], [r] computed in lines 61-64. *)
Definition physics_engine (self : Photon) (mass dx dy r2 r : R)
  : result (R * R) :=
  rx <- div dx r ;;
  ry <- div dy r ;;
  let Lz := dx * snd (vel self) - dy * fst (vel self) in
  let h2 := Lz * Lz in
  f_mag <- div (- (G * mass)) r2 ;;
  gr_correction <- div (- (3 * G * mass * h2)) (r ^ 4) ;;
  let f_mag := f_mag + gr_correction in
  let ax := f_mag * rx in
  let ay := f_mag * ry in
  if is_kerr self && neq (hole_spin self) 0 then
    alignment <- alignment_of Lz (hole_spin self) ;;
    drag_mag <- div (2 * hole_spin self * mass) (r ^ 3) ;;
    let ax := ax + - ry * drag_mag * 0.5 in
    let ay := ay + rx * drag_mag * 0.5 in
    let spin_factor := 1.0 - (alignment * 0.3 * Rabs (hole_spin self)) in
    let gr_diff := gr_correction * (spin_factor - 1.0) in
    let ax := ax + gr_diff * rx in
    let ay := ay + gr_diff * ry in
    Ok (ax, ay)
  else Ok (ax, ay).

(** Lines 118-127: the Euler step and the "too far" test. *)
Definition integrate (self : Photon) (ax ay : R) : outcome :=
  let vx := fst (vel self) + ax * DT in
  let vy := snd (vel self) + ay * DT in
  let x := x_raw self + vx * DT in
  let y := y_raw self + vy * DT in
  let self := set_motion self (vx, vy) x y in
  match sqrt (x ^ 2 + y ^ 2) with
  | Err e => Raised e self
  | Ok d => if Rgt_dec d WIDTH then Returned (set_dead self true)
            else Returned self
  end.

(** [Photon.update] (lines 51-127). *)
Definition update (self : Photon) (mass center_x center_y : R) : outcome :=
  if negb (active self) then Returned self
  else
    let self := record_history self center_x center_y in
    let dx := x_raw self in
    let dy := y_raw self in
    let r2 := dx * dx + dy * dy in
    match sqrt r2 with
    | Err e => Raised e self
    | Ok r =>
      let Rs := 2 * mass in
      if Rlt_dec r Rs then Returned (set_active self false)
      else
        match physics_engine self mass dx dy r2 r with
        | Err e => Raised e self
        | Ok (ax, ay) => integrate self ax ay
        end
    end.

(** [Photon.draw] (lines 129-134): the points handed to the line drawing,
    none when the history has fewer than two entries. *)
Definition trail (self : Photon) : option (list (R * R)) :=
  if (length (history self) <? 2)%nat then None else Some (history self).

(** [class SimulationState] (lines 26-33). *)
Record SimulationState : Type := mkState {
  mass : R;
  spin : R;
  show_horizon : bool;
  particles_schwarz : list Photon;
  particles_kerr : list Photon;
  frame_count : nat
}.

Definition SimulationState_init : SimulationState :=
  {| mass := 30.0;
     spin := 0.9;
     show_horizon := true;
     particles_schwarz := [];
     particles_kerr := [];
     frame_count := 0 |}.

(** The events the loop distinguishes (lines 190-206). *)
Inductive key : Type :=
| K_r | K_h | K_UP | K_DOWN | K_RIGHT | K_LEFT | K_other.

Inductive event : Type :=
| QUIT
| KEYDOWN (k : key)
| OTHER.

(** Lines 193-206: one [KEYDOWN] event. *)
Definition handle_key (st : SimulationState) (k : key) : SimulationState :=
  match k with
  | K_r => mkState (mass st) (spin st) (show_horizon st) [] [] (frame_count st)
  | K_h => mkState (mass st) (spin st) (negb (show_horizon st))
                   (particles_schwarz st) (particles_kerr st) (frame_count st)
  | K_UP => mkState (Rmin (mass st + 5) 100) (spin st) (show_horizon st)
                    (particles_schwarz st) (particles_kerr st) (frame_count st)
  | K_DOWN => mkState (Rmax (mass st - 5) 10) (spin st) (show_horizon st)
                      (particles_schwarz st) (particles_kerr st) (frame_count st)
  | K_RIGHT => mkState (mass st) (Rmin (spin st + 0.1) 1.0) (show_horizon st)
                       (particles_schwarz st) (particles_kerr st) (frame_count st)
  | K_LEFT => mkState (mass st) (Rmax (spin st - 0.1) (-1.0)) (show_horizon st)
                      (particles_schwarz st) (particles_kerr st) (frame_count st)
  | K_other => st
  end.

(** Lines 190-206: the event loop; the boolean is [running]. *)
Fixpoint handle_events (st : SimulationState) (running : bool)
  (events : list event) : SimulationState * bool :=
  match events with
  | [] => (st, running)
  | QUIT :: rest => handle_events st false rest
  | KEYDOWN k :: rest => handle_events (handle_key st k) running rest
  | OTHER :: rest => handle_events st running rest
  end.

(** [range(start, stop, step)] for a positive step. *)
Definition range (start stop step : Z) : list Z :=
  map (fun i => (start + step * Z.of_nat i)%Z)
      (seq 0 (Z.to_nat ((stop - start + step - 1) / step))).

(** Lines 212-219: one photon per offset appended to each collection. *)
Fixpoint spawn_columns (offsets : list Z) (st : SimulationState)
  : SimulationState :=
  match offsets with
  | [] => st
  | y_off :: rest =>
    let p_s := Photon_init (IZR y_off) WIDTH false 0 in
    let p_k := Photon_init (IZR y_off) WIDTH true (spin st) in
    spawn_columns rest
      (mkState (mass st) (spin st) (show_horizon st)
               (particles_schwarz st ++ [p_s]) (particles_kerr st ++ [p_k])
               (frame_count st))
  end.

(** Lines 208-219. *)
Definition spawning (st : SimulationState) : SimulationState :=
  let st := mkState (mass st) (spin st) (show_horizon st)
                    (particles_schwarz st) (particles_kerr st)
                    (S (frame_count st)) in
  if (frame_count st mod SPAWN_RATE =? 0)%nat
  then spawn_columns (range (-100) 101 10) st
  else st.

(** A [for p in ...] loop calling a method of each photon in turn: the
    first exception ends the program. *)
Fixpoint update_each (f : Photon -> outcome) (ps : list Photon)
  : result (list Photon) :=
  match ps with
  | [] => Ok []
  | p :: rest =>
    match f p with
    | Returned p' => rest' <- update_each f rest ;; Ok (p' :: rest')
    | Raised e _ => Err e
    end
  end.

(** The list comprehension [[p for p in ps if not p.dead]]. *)
Definition not_dead (ps : list Photon) : list Photon :=
  filter (fun p => negb (dead p)) ps.

(** Lines 221-231: update and filter both collections. *)
Definition updates (st : SimulationState) : result SimulationState :=
  ps <- update_each (fun p => update p (mass st) 0 0) (particles_schwarz st) ;;
  let ps := not_dead ps in
  pk <- update_each
          (fun p => update (set_hole_spin p (spin st)) (mass st) 0 0)
          (particles_kerr st) ;;
  let pk := not_dead pk in
  Ok (mkState (mass st) (spin st) (show_horizon st) ps pk (frame_count st)).

(** One iteration of the [while running] loop, drawing left out. *)
Definition frame (st : SimulationState) (events : list event)
  : result (SimulationState * bool) :=
  let '(st, running) := handle_events st true events in
  st <- updates (spawning st) ;;
  Ok (st, running).

(** [main]: one list of events per iteration; the loop ends after the
    iteration that saw [QUIT]. *)
Fixpoint main_loop (st : SimulationState) (frames : list (list event))
  : result SimulationState :=
  match frames with
  | [] => Ok st
  | events :: rest =>
    '(st, running) <- frame st events ;;
    if running then main_loop st rest else Ok st
  end.

(** *** One photon followed over successive frames *)

(** What a frame does to one photon: the Kerr loop first assigns
    [hole_spin] (line 229, [assign_spin = Some s]), the Schwarzschild loop
    does not ([None]); then [update] is called. *)
Record call : Type := mkCall {
  assign_spin : option R;
  call_mass : R;
  call_center_x : R;
  call_center_y : R
}.

Definition prepare (self : Photon) (c : call) : Photon :=
  match assign_spin c with
  | Some s => set_hole_spin self s
  | None => self
  end.

Definition apply_call (self : Photon) (c : call) : outcome :=
  update (prepare self c) (call_mass c) (call_center_x c) (call_center_y c).

(** Successive calls on the same object; an exception ends the run. *)
Fixpoint calls (self : Photon) (cs : list call) : outcome :=
  match cs with
  | [] => Returned self
  | c :: rest =>
    match apply_call self c with
    | Returned self' => calls self' rest
    | Raised e self' => Raised e self'
    end
  end.

(** The points appended to [history] along a run, oldest first: one per
    call that found the photon active. *)
Fixpoint recorded (self : Photon) (cs : list call) : list (R * R) :=
  match cs with
  | [] => []
  | c :: rest =>
    let here := if active self
                then [(x_raw self + call_center_x c, y_raw self + call_center_y c)]
                else [] in
    match apply_call self c with
    | Returned self' => here ++ recorded self' rest
    | Raised _ _ => here
    end
  end.

(** The last [n] entries of a list. *)
Definition lastn {A : Type} (n : nat) (l : list A) : list A :=
  skipn (length l - n) l.

(** The part of a photon the frame loop and the drawing read back. *)
Definition motion_state (self : Photon)
  : R * R * (R * R) * list (R * R) * bool * bool :=
  (x_raw self, y_raw self, vel self, history self, active self, dead self).

Definition observe (o : outcome)
  : option exn * (R * R * (R * R) * list (R * R) * bool * bool) :=
  match o with
  | Returned self => (None, motion_state self)
  | Raised e self => (Some e, motion_state self)
  end.

(** Distance of a photon from the hole, [sqrt(x_raw^2 + y_raw^2)]. *)
Definition radius (self : Photon) : R :=
  R_sqrt.sqrt (x_raw self * x_raw self + y_raw self * y_raw self).

(** *** Reflection across the horizontal axis through the hole *)

(** Physics coordinates have the hole at the origin: [y -> -y],
    [vy -> -vy], and the spin changes sign.  History points are stored
    offset by the centre, so there the axis is the line [y = center_y]. *)
Definition mirror (center_y : R) (self : Photon) : Photon :=
  {| pos := (fst (pos self), - snd (pos self));
     x_raw := x_raw self;
     y_raw := - y_raw self;
     vel := (fst (vel self), - snd (vel self));
     history := map (fun q => (fst q, center_y + center_y - snd q))
                    (history self);
     active := active self;
     is_kerr := is_kerr self;
     hole_spin := - hole_spin self;
     dead := dead self |}.

Definition mirror_outcome (center_y : R) (o : outcome) : outcome :=
  match o with
  | Returned self => Returned (mirror center_y self)
  | Raised e self => Raised e (mirror center_y self)
  end.

Definition mirror_call (c : call) : call :=
  mkCall (option_map Ropp (assign_spin c))
         (call_mass c) (call_center_x c) (call_center_y c).

(** No [KEYDOWN K_r] among the events of any frame. *)
Definition no_reset (frames : list (list event)) : Prop :=
  Forall (Forall (fun e => e <> KEYDOWN K_r)) frames.

End Sideview.

(** ** black_hole_raytracing.py: the physics loop of the fragment shader *)

Module RayTracing.

Definition MAX_STEPS : nat := 80.
Definition BH_RADIUS : R := 1.0.

Record vec3 : Type := mkVec3 { X : R; Y : R; Zc : R }.

Definition vadd (a b : vec3) : vec3 :=
  mkVec3 (X a + X b) (Y a + Y b) (Zc a + Zc b).

Definition vscale (a : vec3) (k : R) : vec3 :=
  mkVec3 (X a * k) (Y a * k) (Zc a * k).

Definition vneg (a : vec3) : vec3 :=
  mkVec3 (- X a) (- Y a) (- Zc a).

(** GLSL [length]. *)
Definition length (a : vec3) : R :=
  R_sqrt.sqrt (X a * X a + Y a * Y a + Zc a * Zc a).

(** GLSL [normalize]: the vector divided by its length.  GLSL leaves a
    division by zero undefined; here it is an explicit error, as in
    Python, so that its absence can be stated. *)
Definition normalize (a : vec3) : result vec3 :=
  let l := length a in
  x <- div (X a) l ;;
  y <- div (Y a) l ;;
  z <- div (Zc a) l ;;
  Ok (mkVec3 x y z).

(** Line 97: [force = -normalize(pos) * (3.0 / (r * r))]. *)
Definition gravity (pos : vec3) (r : R) : result vec3 :=
  n <- normalize pos ;;
  k <- div 3.0 (r * r) ;;
  Ok (vscale (vneg n) k).

Record ray : Type := mkRay { pos : vec3; dir : vec3; escaped : bool }.

Inductive flow : Type := Continue | Break.

(** Lines 89-103: the body of the [for] loop. *)
Definition march_step (s : ray) : result (ray * flow) :=
  let r := length (pos s) in
  if Rlt_dec r BH_RADIUS then Ok (mkRay (pos s) (dir s) false, Break)
  else
    let h := Rmax 0.05 (r * 0.1) in
    force <- gravity (pos s) r ;;
    let d := vadd (dir s) (vscale force h) in
    d <- normalize d ;;
    let p := vadd (pos s) (vscale d h) in
    Ok (mkRay p d (escaped s), if Rgt_dec r 1000.0 then Break else Continue).

(** Lines 88-104: at most [steps] iterations. *)
Fixpoint march (steps : nat) (s : ray) : result ray :=
  match steps with
  | O => Ok s
  | S n =>
    '(s, f) <- march_step s ;;
    match f with
    | Break => Ok s
    | Continue => march n s
    end
  end.

(** Lines 84-104: the loop started from the camera ray [(ro, rd)]. *)
Definition physics_loop (ro rd : vec3) : result ray :=
  march MAX_STEPS (mkRay ro rd true).

End RayTracing.

(** ** The force law in the words of the specification *)

Module SpacetimeModel.

Import Sideview.

(** [sign(x)]: -1, 0 or 1. *)
Definition sign (x : R) : R :=
  if Rlt_dec x 0 then -1 else if Rlt_dec 0 x then 1 else 0.

(** Section 4.1 of the specification, steps 1-8, in two dimensions:
    position [(x, y)], velocity [(vx, vy)], [spin = None] when spin
    support is disabled.  The tangential direction, whose sense the
    specification leaves to the implementation, is [(-ry, rx)]. *)
Definition acceleration (position velocity : R * R) (mass : R)
  (spin : option R) : R * R :=
  let '(x, y) := position in
  let '(vx, vy) := velocity in
  let r := R_sqrt.sqrt (x * x + y * y) in
  let rhat := (x / r, y / r) in
  let Lz := x * vy - y * vx in
  let newton := - G * mass / r ^ 2 in
  let correction := - 3 * G * mass * Lz ^ 2 / r ^ 4 in
  let f := newton + correction in
  let base := (f * fst rhat, f * snd rhat) in
  match spin with
  | None => base
  | Some s =>
    if Req_dec_T s 0 then base
    else
      let alignment := sign Lz * sign s in
      let drag := 2 * s * mass / r ^ 3 in
      let delta := correction * (- alignment * 0.3 * Rabs s) in
      (fst base + 0.5 * drag * (- snd rhat) + delta * fst rhat,
       snd base + 0.5 * drag * fst rhat + delta * snd rhat)
  end.

(** The spin handed to the model by a photon: its [hole_spin] when the
    Kerr flag is set. *)
Definition spin_of (self : Photon) : option R :=
  if is_kerr self then Some (hole_spin self) else None.

(** Forward Euler with step [DT]: the velocity advances by the
    acceleration, the position by the updated velocity. *)
Definition euler (self self' : Photon) (mass : R) : Prop :=
  let a := acceleration (x_raw self, y_raw self) (vel self) mass
                        (spin_of self) in
  vel self' = (fst (vel self) + fst a * DT, snd (vel self) + snd a * DT) /\
  x_raw self' = x_raw self + fst (vel self') * DT /\
  y_raw self' = y_raw self + snd (vel self') * DT.

End SpacetimeModel.

(** ** Concrete inputs *)

Module Examples.

Import Sideview.

(** A Schwarzschild photon at [(-30, 40)], radius 50, flying right. *)
Definition inside : Photon :=
  mkPhoton (0, 40) (-30) 40 (4, 0) [] true false 0 false.

(** A captured photon, parked at [(100, 0)]. *)
Definition parked : Photon :=
  mkPhoton (0, 0) 100 0 (4, 0) [] false false 0 false.

(** A photon on the axis at [x = 1], and a call with no mass at all. *)
Definition drifting : Photon := Photon_init 0 (-2) false 0.
Definition free_call : call := mkCall None 0 0 0.

(** A photon at [(-50, 0)] that was at [(-54, 0)] one frame earlier. *)
Definition falling : Photon :=
  mkPhoton (0, 0) (-50) 0 (4, 0) [(-54, 0)] true false 0 false.

(** [inside] after the call that captures it at mass 30 ([Rs = 60]). *)
Definition captured : Photon := final (update inside 30 0 0).

(** A state whose Schwarzschild collection holds [inside] alone, the
    hole at its initial mass 30. *)
Definition one_inside : SimulationState :=
  mkState 30 0.9 true [inside] [] 0.

(** The same with the captured photon [parked], and two frames of events. *)
Definition one_parked : SimulationState :=
  mkState 30 0.9 true [parked] [] 0.

Definition two_frames : list (list event) :=
  [[KEYDOWN K_DOWN; OTHER]; [KEYDOWN K_RIGHT]].


Definition tangent_ray : RayTracing.ray :=
  RayTracing.mkRay (RayTracing.mkVec3 2 0 0) (RayTracing.mkVec3 0 1 0) true.


(** A Kerr photon above the axis, and one frame's call at spin 0.9. *)
Definition prograde : Photon :=
  mkPhoton (0, 50) (-400) 50 (4, 0) [] true true 0.9 false.

Definition kerr_call : call := mkCall (Some 0.9) 30 0 0.

End Examples.

(** ** Quantities read off the photons and the state *)

Module Observables.

Import Sideview.

(** Line 79: the angular momentum [Lz = x * vy - y * vx] of a photon. *)
Definition angular_momentum (self : Photon) : R :=
  x_raw self * snd (vel self) - y_raw self * fst (vel self).

(** The photons one spawn event appends to a collection (lines 212-219),
    in order. *)
Definition spawned (kerr : bool) (spin : R) : list Photon :=
  map (fun y_off => Photon_init (IZR y_off) WIDTH kerr spin)
      (range (-100) 101 10).

(** The parameter ranges the key handling clamps to (lines 199-206). *)
Definition in_range (st : SimulationState) : Prop :=
  10 <= mass st <= 100 /\ -1 <= spin st <= 1.

(** What every iteration leaves in the two collections. *)
Definition tidy (st : SimulationState) : Prop :=
  Forall (fun p => dead p = false /\ is_kerr p = false) (particles_schwarz st) /\
  Forall (fun p => dead p = false /\ is_kerr p = true /\ hole_spin p = spin st)
         (particles_kerr st).
(** The Kerr flags of the two collections. *)
Definition flags (st : SimulationState) : Prop :=
  Forall (fun p => is_kerr p = false) (particles_schwarz st) /\
  Forall (fun p => is_kerr p = true) (particles_kerr st).

End Observables.

(** ** black_hole_raytracing.py: the camera and the fragment colour *)

Module Shader.

Import RayTracing.

(** [a - b], [k * a], [dot] and [cross] on [vec3], as GLSL defines them. *)
Definition vsub (a b : vec3) : vec3 :=
  mkVec3 (X a - X b) (Y a - Y b) (Zc a - Zc b).

Definition smul (k : R) (a : vec3) : vec3 :=
  mkVec3 (k * X a) (k * Y a) (k * Zc a).

Definition dot (a b : vec3) : R :=
  X a * X b + Y a * Y b + Zc a * Zc b.

Definition cross (a b : vec3) : vec3 :=
  mkVec3 (Y a * Zc b - Y b * Zc a)
         (Zc a * X b - Zc b * X a)
         (X a * Y b - X b * Y a).

(** GLSL [clamp(x, lo, hi) = min(max(x, lo), hi)]. *)
Definition clamp (x lo hi : R) : R := Rmin (Rmax x lo) hi.

(** The uniforms the shader reads (lines 43-46); the sampler is the
    parameter of [main] below. *)
Record uniforms : Type := mkUniforms {
  u_resolution : R * R;
  u_mouse : R * R;
  u_zoom : R
}.

(** Lines 62-81: the camera position [ro] and the ray direction [rd] of
    the fragment at [gl_FragCoord.xy]. *)
Definition camera (gl_FragCoord : R * R) (u : uniforms) : result (vec3 * vec3) :=
  uv_x <- div (fst gl_FragCoord - 0.5 * fst (u_resolution u))
              (snd (u_resolution u)) ;;
  uv_y <- div (snd gl_FragCoord - 0.5 * snd (u_resolution u))
              (snd (u_resolution u)) ;;
  camDist <- div 12.0 (u_zoom u) ;;
  ax <- div (fst (u_mouse u)) (fst (u_resolution u)) ;;
  let angleX := ax * 6.28 in
  ay <- div (snd (u_mouse u)) (snd (u_resolution u)) ;;
  let angleY := (ay - 0.5) * 3.0 in
  let angleY := clamp angleY (-1.5) 1.5 in
  let ro := mkVec3 (camDist * sin angleX * cos angleY)
                   (camDist * sin angleY)
                   (camDist * cos angleX * cos angleY) in
  let target := mkVec3 0.0 0.0 0.0 in
  ww <- normalize (vsub target ro) ;;
  uu <- normalize (cross ww (mkVec3 0.0 1.0 0.0)) ;;
  vv <- normalize (cross uu ww) ;;
  rd <- normalize (vadd (vadd (smul uv_x uu) (smul uv_y vv)) (smul 1.2 ww)) ;;
  Ok (ro, rd).

Section Fragment.

(** [getSkybox] (lines 55-59) looks the direction up in the texture bound
    to [u_skybox], an asset outside the program. *)
Variable getSkybox : vec3 -> vec3.

(** [main] (lines 61-112): the colour [vec4(col, 1.0)] of one fragment. *)
Definition main (gl_FragCoord : R * R) (u : uniforms) : result (vec3 * R) :=
  '(ro, rd) <- camera gl_FragCoord u ;;
  s <- physics_loop ro rd ;;
  let col := if escaped s then getSkybox (dir s) else mkVec3 0.0 0.0 0.0 in
  Ok (col, 1.0).

End Fragment.

End Shader.

(** ** black_hole_raytracing.py: the window loop *)

Module Viewer.

(** The pygame events the loop distinguishes (lines 180-201). *)
Inductive event : Type :=
| QUIT
| VIDEORESIZE (w h : R)
| MOUSEBUTTONDOWN (button : Z)
| MOUSEBUTTONUP (button : Z)
| MOUSEMOTION (rel : R * R)
| OTHER.

(** The module-level variables the loop assigns (lines 9, 169-177) and
    the values it has given to the context and the uniforms; [None] where
    the program has assigned nothing yet. *)
Record state : Type := mkViewer {
  WIDTH : R;
  HEIGHT : R;
  viewport : option (R * R * R * R);
  u_resolution : R * R;
  u_mouse : option (R * R);
  u_zoom : R;
  running : bool;
  zoom : R;
  mouse_x : R;
  mouse_y : R;
  dragging : bool
}.

(** Lines 9 and 168-177. *)
Definition init : state :=
  {| WIDTH := 1280;
     HEIGHT := 720;
     viewport := None;
     u_resolution := (1280, 720);
     u_mouse := None;
     u_zoom := 1.0;
     running := true;
     zoom := 1.0;
     mouse_x := 1280 / 2;
     mouse_y := 720 / 2;
     dragging := false |}.

Definition set_dragging (s : state) (b : bool) : state :=
  mkViewer (WIDTH s) (HEIGHT s) (viewport s) (u_resolution s) (u_mouse s)
           (u_zoom s) (running s) (zoom s) (mouse_x s) (mouse_y s) b.

Definition set_zoom (s : state) (z : R) : state :=
  mkViewer (WIDTH s) (HEIGHT s) (viewport s) (u_resolution s) (u_mouse s)
           (u_zoom s) (running s) z (mouse_x s) (mouse_y s) (dragging s).

Definition set_u_zoom (s : state) (z : R) : state :=
  mkViewer (WIDTH s) (HEIGHT s) (viewport s) (u_resolution s) (u_mouse s)
           z (running s) (zoom s) (mouse_x s) (mouse_y s) (dragging s).

(** Lines 181-201: one event. *)
Definition handle_event (s : state) (e : event) : state :=
  match e with
  | QUIT =>
    mkViewer (WIDTH s) (HEIGHT s) (viewport s) (u_resolution s) (u_mouse s)
             (u_zoom s) false (zoom s) (mouse_x s) (mouse_y s) (dragging s)
  | VIDEORESIZE w h =>
    mkViewer w h (Some (0, 0, w, h)) (w, h) (u_mouse s)
             (u_zoom s) (running s) (zoom s) (mouse_x s) (mouse_y s) (dragging s)
  | MOUSEBUTTONDOWN button =>
    let s := if (button =? 1)%Z then set_dragging s true else s in
    let s := if (button =? 4)%Z then set_zoom s (Rmin (zoom s + 0.5) 10.0) else s in
    let s := if (button =? 5)%Z then set_zoom s (Rmax (zoom s - 0.5) 0.1) else s in
    set_u_zoom s (zoom s)
  | MOUSEBUTTONUP button =>
    if (button =? 1)%Z then set_dragging s false else s
  | MOUSEMOTION rel =>
    if dragging s then
      let mx := mouse_x s + fst rel in
      let my := mouse_y s + snd rel in
      mkViewer (WIDTH s) (HEIGHT s) (viewport s) (u_resolution s)
               (Some (mx, HEIGHT s - my))
               (u_zoom s) (running s) (zoom s) mx my (dragging s)
    else s
  | OTHER => s
  end.

(** Line 180: the [for event in pygame.event.get()] loop. *)
Definition handle_events (s : state) (events : list event) : state :=
  fold_left handle_event events s.

(** Lines 179-210: the iterations of [while running], one list of events
    each; the loop ends after the iteration that saw [QUIT]. *)
Fixpoint main_loop (s : state) (frames : list (list event)) : state :=
  match frames with
  | [] => s
  | events :: rest =>
    let s := handle_events s events in
    if running s then main_loop s rest else s
  end.

(** The uniform values a draw call reads.  A uniform the program never
    assigned still has the value OpenGL gives it at link time, zero. *)
Definition uniforms_of (s : state) : Shader.uniforms :=
  Shader.mkUniforms
    (u_resolution s)
    (match u_mouse s with Some m => m | None => (0, 0) end)
    (u_zoom s).

(** Line 207: what the draw call computes for the fragment at
    [gl_FragCoord]. *)
Definition render (getSkybox : RayTracing.vec3 -> RayTracing.vec3)
  (s : state) (gl_FragCoord : R * R) : result (RayTracing.vec3 * R) :=
  Shader.main getSkybox gl_FragCoord (uniforms_of s).

(** What the loop keeps true of its variables and uniforms. *)
Definition consistent (s : state) : Prop :=
  0.1 <= zoom s <= 10 /\ u_zoom s = zoom s /\
  u_resolution s = (WIDTH s, HEIGHT s).

(** A resize to a window that has no zero side. *)
Definition proper (e : event) : Prop :=
  match e with
  | VIDEORESIZE w h => w <> 0 /\ h <> 0
  | _ => True
  end.

End Viewer.

(** ** More concrete inputs *)

Module Instances.

Import Sideview.

(** A state one frame before a spawn. *)
Definition before_spawn : SimulationState :=
  mkState 30 0.9 true [] [] 4.

(** 192 frames at the initial mass. *)
Definition long_run : list call := repeat (mkCall None 30 0 0) 192.

(** The Kerr photon spawned on the axis at the initial spin. *)
Definition kerr_axis : Photon := Photon_init 0 WIDTH true 0.9.

(** The uniforms of the first draw call. *)
Definition first_draw : Shader.uniforms :=
  Shader.mkUniforms (1280, 720) (0, 0) 1.

(** A wheel turn and a mouse move with no button held. *)
Definition idle_events : list Viewer.event :=
  [Viewer.MOUSEBUTTONDOWN 4; Viewer.MOUSEMOTION (5, 5)].

Definition resized : list (list Viewer.event) :=
  [[Viewer.VIDEORESIZE 800 600]; [Viewer.MOUSEBUTTONDOWN 5]].

End Instances.

(** * Properties *)

Import Sideview.

(** ** Arithmetic that does not raise *)

Lemma div_ok (a b : R) : b <> 0 -> div a b = Ok (a / b).
Proof.
  intros Hb. unfold div. destruct (Req_dec_T b 0); [contradiction | reflexivity].
Qed.

Lemma sqrt_ok (x : R) : 0 <= x -> Py.sqrt x = Ok (R_sqrt.sqrt x).
Proof.
  intros Hx. unfold Py.sqrt. destruct (Rlt_dec x 0); [lra | reflexivity].
Qed.

Lemma sum_squares_nonneg (x y : R) : 0 <= x * x + y * y.
Proof. nra. Qed.

Lemma sum_pow2_nonneg (x y : R) : 0 <= x ^ 2 + y ^ 2.
Proof. nra. Qed.

Lemma neq_false (a : R) : neq a a = false.
Proof. unfold neq. destruct (Req_dec_T a a); [reflexivity | contradiction]. Qed.

Lemma radius_squared (x y : R) :
  R_sqrt.sqrt (x * x + y * y) * R_sqrt.sqrt (x * x + y * y) = x * x + y * y.
Proof. apply sqrt_sqrt, sum_squares_nonneg. Qed.

Lemma alignment_of_ok (Lz s : R) : exists a, alignment_of Lz s = Ok a.
Proof.
  unfold alignment_of, neq.
  destruct (Req_dec_T Lz 0) as [HL | HL]; [eexists; reflexivity |].
  rewrite (div_ok Lz (Rabs Lz)) by (apply Rabs_no_R0; exact HL). cbn.
  destruct (Req_dec_T s 0) as [Hs | Hs]; cbn; [eexists; reflexivity |].
  rewrite (div_ok s (Rabs s)) by (apply Rabs_no_R0; exact Hs). cbn.
  eexists; reflexivity.
Qed.

(** The physics engine returns whenever [r] and [r2] are not zero. *)
Lemma physics_engine_ok (self : Photon) (mass dx dy r2 r : R) :
  r <> 0 -> r2 <> 0 -> exists a, physics_engine self mass dx dy r2 r = Ok a.
Proof.
  intros Hr Hr2. unfold physics_engine.
  rewrite !(div_ok _ r) by exact Hr. cbn.
  rewrite (div_ok _ r2) by exact Hr2. cbn.
  rewrite (div_ok _ (r ^ 4)) by (apply pow_nonzero; exact Hr). cbn.
  destruct (is_kerr self && neq (hole_spin self) 0); [| eexists; reflexivity].
  match goal with
  | |- context [alignment_of ?L ?s] => destruct (alignment_of_ok L s) as [a' Ha']; rewrite Ha'
  end. cbn.
  rewrite (div_ok _ (r ^ 3)) by (apply pow_nonzero; exact Hr). cbn.
  eexists; reflexivity.
Qed.

Lemma integrate_returns (self : Photon) (ax ay : R) :
  exists self', integrate self ax ay = Returned self'.
Proof.
  unfold integrate. rewrite sqrt_ok by apply sum_pow2_nonneg.
  match goal with |- context [Rgt_dec ?a ?b] => destruct (Rgt_dec a b) end;
    eexists; reflexivity.
Qed.

(** With a positive mass no call raises. *)
Lemma update_returns (self : Photon) (mass cx cy : R) :
  0 < mass -> exists self', update self mass cx cy = Returned self'.
Proof.
  intros Hm. unfold update.
  destruct (active self); cbn [negb]; [| eexists; reflexivity].
  rewrite sqrt_ok by apply sum_squares_nonneg.
  match goal with |- context [Rlt_dec ?a ?b] => destruct (Rlt_dec a b) as [Hc | Hc] end;
    [eexists; reflexivity |].
  match goal with
  | |- context [physics_engine ?s ?m ?dx ?dy ?r2 ?r] =>
    assert (Hr : r <> 0) by lra;
    assert (Hr2 : r2 <> 0)
      by (intros H0; apply Hr; rewrite H0; apply sqrt_0);
    destruct (physics_engine_ok s m dx dy r2 r Hr Hr2) as [[ax ay] Ha]; rewrite Ha
  end.
  apply integrate_returns.
Qed.

Lemma sqrt_of_squares (x y c : R) :
  0 <= c -> x * x + y * y = c * c -> R_sqrt.sqrt (x * x + y * y) = c.
Proof. intros Hc H. rewrite H. apply sqrt_square. exact Hc. Qed.

Lemma radius_inside : radius Examples.inside = 50.
Proof. unfold radius. cbn. apply sqrt_of_squares; lra. Qed.

(** ** Capture *)

Lemma update_inactive (self : Photon) (mass cx cy : R) :
  active self = false -> update self mass cx cy = Returned self.
Proof. intros H. unfold update. rewrite H. reflexivity. Qed.

Lemma update_capture (self : Photon) (mass cx cy : R) :
  active self = true -> radius self < 2 * mass ->
  update self mass cx cy = Returned (set_active (record_history self cx cy) false).
Proof.
  intros Ha Hr. unfold update. rewrite Ha. cbn [negb].
  rewrite sqrt_ok by apply sum_squares_nonneg.
  cbn [record_history set_history x_raw y_raw].
  fold (radius self).
  destruct (Rlt_dec (radius self) (2 * mass)); [reflexivity | contradiction].
Qed.

(** An inactive photon is returned by any run with only [hole_spin]
    possibly reassigned. *)
Lemma calls_inactive (self : Photon) (cs : list call) :
  active self = false ->
  exists self', calls self cs = Returned self' /\
                motion_state self' = motion_state self.
Proof.
  revert self. induction cs as [| c cs IH]; intros self Ha.
  - exists self. split; reflexivity.
  - cbn [calls]. unfold apply_call.
    assert (Hp : active (prepare self c) = false)
      by (unfold prepare; destruct (assign_spin c); exact Ha).
    rewrite (update_inactive _ _ _ _ Hp).
    destruct (IH _ Hp) as [self' [Hc Hm]].
    exists self'. split; [exact Hc |].
    rewrite Hm. unfold prepare. destruct (assign_spin c); reflexivity.
Qed.

(** C2.  Whenever a call finds the photon at a radius below [Rs = 2 * mass],
    it returns with [active = false] and with position and velocity as
    they were; and whatever calls follow (any masses, centres and spin
    assignments), each returns and position, velocity and history stay as
    that call left them. *)
Theorem capture_is_final (self : Photon) (mass cx cy : R) :
  radius self < 2 * mass ->
  exists self',
    update self mass cx cy = Returned self' /\
    active self' = false /\
    x_raw self' = x_raw self /\ y_raw self' = y_raw self /\
    vel self' = vel self /\
    forall later : list call,
    exists self'',
      calls self' later = Returned self'' /\
      active self'' = false /\
      x_raw self'' = x_raw self' /\ y_raw self'' = y_raw self' /\
      vel self'' = vel self' /\ history self'' = history self'.
Proof.
  intros Hr.
  assert (Hstep : exists self',
             update self mass cx cy = Returned self' /\ active self' = false /\
             x_raw self' = x_raw self /\ y_raw self' = y_raw self /\
             vel self' = vel self).
  { destruct (active self) eqn:Ha.
    - rewrite (update_capture _ _ _ _ Ha Hr). eexists. split; [reflexivity |].
      repeat split.
    - rewrite (update_inactive _ _ _ _ Ha). exists self. repeat split. exact Ha. }
  destruct Hstep as [self' [Hu [Ha' [Hx [Hy Hv]]]]].
  exists self'. repeat (split; [assumption |]).
  intros later. destruct (calls_inactive self' later Ha') as [self'' [Hc Hm]].
  exists self''. split; [exact Hc |].
  unfold motion_state in Hm. injection Hm as Hx' Hy' Hv' Hh' Hact' _.
  rewrite Hact'. repeat split; assumption.
Qed.

Lemma capture_is_final_witness :
  radius Examples.inside < 2 * 30 /\
  exists self',
    update Examples.inside 30 0 0 = Returned self' /\
    active self' = false /\
    x_raw self' = x_raw Examples.inside /\ y_raw self' = y_raw Examples.inside /\
    vel self' = vel Examples.inside /\
    forall later : list call,
    exists self'',
      calls self' later = Returned self'' /\
      active self'' = false /\
      x_raw self'' = x_raw self' /\ y_raw self'' = y_raw self' /\
      vel self'' = vel self' /\ history self'' = history self'.
Proof.
  assert (H : radius Examples.inside < 2 * 30) by (rewrite radius_inside; lra).
  split; [exact H | exact (capture_is_final Examples.inside 30 0 0 H)].
Defined.

(** ** The force law and the Euler step *)

Lemma sign_quotient (x : R) : x <> 0 -> x / Rabs x = SpacetimeModel.sign x.
Proof.
  intros Hx. unfold SpacetimeModel.sign.
  destruct (Rlt_dec x 0) as [Hn | Hn].
  - rewrite Rabs_left by exact Hn. field. lra.
  - destruct (Rlt_dec 0 x) as [Hp | Hp]; [| lra].
    rewrite Rabs_right by lra. field. lra.
Qed.

Lemma sign_zero : SpacetimeModel.sign 0 = 0.
Proof.
  unfold SpacetimeModel.sign.
  destruct (Rlt_dec 0 0); [lra |]. reflexivity.
Qed.

Lemma alignment_of_sign (Lz s : R) :
  s <> 0 ->
  alignment_of Lz s = Ok (SpacetimeModel.sign Lz * SpacetimeModel.sign s).
Proof.
  intros Hs. unfold alignment_of, neq.
  destruct (Req_dec_T Lz 0) as [HL | HL].
  - subst Lz. rewrite sign_zero. f_equal. ring.
  - rewrite (div_ok Lz (Rabs Lz)) by (apply Rabs_no_R0; exact HL). cbn.
    destruct (Req_dec_T s 0) as [Hs0 | _]; [contradiction |].
    rewrite (div_ok s (Rabs s)) by (apply Rabs_no_R0; exact Hs). cbn.
    rewrite !sign_quotient by assumption. reflexivity.
Qed.

Lemma physics_engine_spec (self : Photon) (mass dx dy : R) :
  let r := R_sqrt.sqrt (dx * dx + dy * dy) in
  r <> 0 ->
  physics_engine self mass dx dy (dx * dx + dy * dy) r =
  Ok (SpacetimeModel.acceleration (dx, dy) (vel self) mass
        (SpacetimeModel.spin_of self)).
Proof.
  intros r Hr.
  assert (Hr2 : dx * dx + dy * dy = r * r) by (symmetry; apply radius_squared).
  assert (Hr2' : dx * dx + dy * dy <> 0) by (rewrite Hr2; nra).
  unfold physics_engine.
  rewrite !(div_ok _ r) by exact Hr. cbn [bind].
  rewrite (div_ok _ (dx * dx + dy * dy)) by exact Hr2'. cbn [bind].
  rewrite (div_ok _ (r ^ 4)) by (apply pow_nonzero; exact Hr). cbn [bind].
  unfold SpacetimeModel.acceleration, SpacetimeModel.spin_of.
  destruct (vel self) as [vx vy]. cbn [fst snd]. fold r.
  destruct (is_kerr self); cbn [andb].
  - unfold neq. destruct (Req_dec_T (hole_spin self) 0) as [Hs | Hs].
    + f_equal. f_equal; rewrite Hr2; unfold G; field; exact Hr.
    + rewrite alignment_of_sign by exact Hs. cbn [bind].
      rewrite (div_ok _ (r ^ 3)) by (apply pow_nonzero; exact Hr). cbn [bind].
      f_equal. f_equal; rewrite Hr2; unfold G; field; exact Hr.
  - f_equal. f_equal; rewrite Hr2; unfold G; field; exact Hr.
Qed.

(** An active photon outside the horizon takes the Euler step with the
    acceleration of the model. *)
Lemma update_active_outside (self : Photon) (mass cx cy : R) :
  active self = true -> radius self <> 0 -> ~ radius self < 2 * mass ->
  let a := SpacetimeModel.acceleration (x_raw self, y_raw self) (vel self) mass
             (SpacetimeModel.spin_of self) in
  update self mass cx cy = integrate (record_history self cx cy) (fst a) (snd a).
Proof.
  intros Ha Hr0 Hr a. unfold update. rewrite Ha. cbn [negb].
  rewrite sqrt_ok by apply sum_squares_nonneg.
  cbn [record_history set_history x_raw y_raw].
  fold (radius self).
  destruct (Rlt_dec (radius self) (2 * mass)); [contradiction |].
  match goal with
  | |- context [physics_engine ?s _ _ _ _ _] =>
    pose proof (physics_engine_spec s mass (x_raw self) (y_raw self) Hr0) as Hp
  end.
  cbv zeta in Hp.
  change (vel (record_history self cx cy)) with (vel self) in Hp.
  change (SpacetimeModel.spin_of (record_history self cx cy))
    with (SpacetimeModel.spin_of self) in Hp.
  unfold radius. fold (record_history self cx cy). rewrite Hp. fold a.
  destruct a as [ax ay]. reflexivity.
Qed.

Lemma integrate_motion (self : Photon) (ax ay : R) :
  exists self',
    integrate self ax ay = Returned self' /\
    vel self' = (fst (vel self) + ax * DT, snd (vel self) + ay * DT) /\
    x_raw self' = x_raw self + fst (vel self') * DT /\
    y_raw self' = y_raw self + snd (vel self') * DT /\
    history self' = history self /\ active self' = active self /\
    is_kerr self' = is_kerr self /\ hole_spin self' = hole_spin self /\
    (dead self' = true <->
     dead self = true \/ R_sqrt.sqrt (x_raw self' ^ 2 + y_raw self' ^ 2) > WIDTH).
Proof.
  unfold integrate. rewrite sqrt_ok by apply sum_pow2_nonneg.
  match goal with |- context [Rgt_dec ?a ?b] => destruct (Rgt_dec a b) as [Hd | Hd] end;
    eexists; (split; [reflexivity |]); cbn; repeat (split; [reflexivity |]).
  - split; [intros _; right; exact Hd | reflexivity].
  - split; [intros H; left; exact H | intros [H | H]; [exact H | contradiction]].
Qed.

(** C1 (amended).  For an active photon with [mass > 0] and radius at least
    [Rs = 2 * mass], one call returns a photon whose velocity advanced by
    [DT] times the acceleration of the model (Newtonian term, relativistic
    correction, and the two spin terms exactly when the Kerr flag is set and
    the spin is not zero) and whose position advanced by [DT] times the
    updated velocity. *)
Theorem update_is_euler_step (self : Photon) (mass cx cy : R) :
  active self = true -> 0 < mass -> 2 * mass <= radius self ->
  exists self',
    update self mass cx cy = Returned self' /\
    SpacetimeModel.euler self self' mass /\
    active self' = true.
Proof.
  intros Ha Hm Hr.
  rewrite update_active_outside by (try assumption; lra).
  match goal with
  | |- context [integrate ?s ?ax ?ay] =>
    destruct (integrate_motion s ax ay)
      as [self' [Hi [Hv [Hx [Hy [_ [Hact _]]]]]]]
  end.
  exists self'. split; [exact Hi |]. split.
  - unfold SpacetimeModel.euler. cbv zeta. repeat split; assumption.
  - rewrite Hact. exact Ha.
Qed.

Lemma update_is_euler_step_witness :
  active Examples.inside = true /\ 0 < 20 /\ 2 * 20 <= radius Examples.inside /\
  exists self',
    update Examples.inside 20 0 0 = Returned self' /\
    SpacetimeModel.euler Examples.inside self' 20 /\
    active self' = true.
Proof.
  assert (H1 : active Examples.inside = true) by reflexivity.
  assert (H2 : 0 < 20) by lra.
  assert (H3 : 2 * 20 <= radius Examples.inside) by (rewrite radius_inside; lra).
  repeat (split; [assumption |]).
  exact (update_is_euler_step Examples.inside 20 0 0 H1 H2 H3).
Defined.

Lemma captured_eq :
  Examples.captured = set_active (record_history Examples.inside 0 0) false.
Proof.
  unfold Examples.captured. rewrite update_capture; [reflexivity .. |].
  rewrite radius_inside. lra.
Qed.

(** C1 as stated fails on a captured photon.  [captured] is the photon the
    code leaves after capturing [inside] at mass 30; once the mass is
    lowered to 20 it satisfies [mass > 0] and has radius [50 >= Rs = 40],
    yet the call leaves it where it is, while the Euler step would move it
    by [vx * DT = 2]. *)
Lemma update_inactive_not_euler :
  0 < 20 /\ 2 * 20 <= radius Examples.captured /\
  ~ exists self',
      update Examples.captured 20 0 0 = Returned self' /\
      SpacetimeModel.euler Examples.captured self' 20.
Proof.
  rewrite captured_eq.
  split; [lra |]. split.
  - change (radius (set_active (record_history Examples.inside 0 0) false))
      with (radius Examples.inside).
    rewrite radius_inside. lra.
  - intros [self' [Hu [_ [Hx _]]]].
    rewrite update_inactive in Hu by reflexivity.
    injection Hu as <-. cbn in Hx. unfold DT in Hx. lra.
Qed.

(** ** The trail *)

Section History.

Context {A : Type}.

Lemma lastn_length (n : nat) (l : list A) :
  length (lastn n l) = Nat.min n (length l).
Proof. unfold lastn. rewrite length_skipn. lia. Qed.

Lemma lastn_short (n : nat) (l : list A) :
  (length l <= n)%nat -> lastn n l = l.
Proof.
  intros H. unfold lastn. replace (length l - n)%nat with 0%nat by lia. reflexivity.
Qed.

(** Appending to the kept suffix and cutting again is appending to the
    whole list and cutting once. *)
Lemma lastn_snoc (n : nat) (l : list A) (x : A) :
  (0 < n)%nat -> lastn n (lastn n l ++ [x]) = lastn n (l ++ [x]).
Proof.
  intros Hn. unfold lastn.
  rewrite !length_app, length_skipn. cbn [length].
  rewrite !skipn_app, length_skipn, skipn_skipn.
  destruct (Nat.le_gt_cases (length l) n) as [Hle | Hgt].
  - replace (length l - n)%nat with 0%nat by lia.
    rewrite Nat.sub_0_r, Nat.add_0_r. reflexivity.
  - replace (length l - (length l - n) + 1 - n + (length l - n))%nat
      with (length l + 1 - n)%nat by lia.
    replace (length l - (length l - n) + 1 - n - (length l - (length l - n)))%nat
      with (length l + 1 - n - length l)%nat by lia.
    reflexivity.
Qed.

(** Lines 56-58 on a list within the cap: append, keep the last
    [TRAIL_LENGTH]. *)
Lemma append_pop (h : list A) (x : A) :
  (length h <= TRAIL_LENGTH)%nat ->
  (if (TRAIL_LENGTH <? length (h ++ [x]))%nat then tl (h ++ [x]) else h ++ [x])
  = lastn TRAIL_LENGTH (h ++ [x]).
Proof.
  intros Hh. unfold lastn. rewrite length_app. cbn [length].
  destruct (TRAIL_LENGTH <? length h + 1)%nat eqn:E.
  - apply Nat.ltb_lt in E.
    replace (length h + 1 - TRAIL_LENGTH)%nat with 1%nat by lia.
    reflexivity.
  - apply Nat.ltb_ge in E.
    replace (length h + 1 - TRAIL_LENGTH)%nat with 0%nat by lia.
    reflexivity.
Qed.

End History.

Lemma integrate_history (self : Photon) (ax ay : R) :
  history (final (integrate self ax ay)) = history self.
Proof.
  unfold integrate.
  destruct (Py.sqrt _); [| reflexivity].
  destruct (Rgt_dec _ _); reflexivity.
Qed.

(** A call changes [history] in lines 56-58 only. *)
Lemma update_history (self : Photon) (mass cx cy : R) :
  history (final (update self mass cx cy)) =
  if active self then history (record_history self cx cy) else history self.
Proof.
  unfold update. destruct (active self); cbn [negb]; [| reflexivity].
  destruct (Py.sqrt _); [| reflexivity].
  destruct (Rlt_dec _ _); [reflexivity |].
  destruct (physics_engine _ _ _ _ _ _) as [[ax ay] |]; [| reflexivity].
  apply integrate_history.
Qed.

Lemma calls_history (cs : list call) :
  forall (self : Photon) (base : list (R * R)),
    history self = lastn TRAIL_LENGTH base ->
    history (final (calls self cs)) =
    lastn TRAIL_LENGTH (base ++ recorded self cs).
Proof.
  induction cs as [| c cs IH]; intros self base Hb.
  - cbn. rewrite app_nil_r. exact Hb.
  - cbn [calls recorded].
    assert (Hstep : history (final (apply_call self c)) =
                    lastn TRAIL_LENGTH
                      (base ++ (if active self
                                then [(x_raw self + call_center_x c,
                                       y_raw self + call_center_y c)]
                                else []))).
    { unfold apply_call. rewrite update_history.
      assert (Hp : active (prepare self c) = active self /\
                   history (prepare self c) = history self /\
                   x_raw (prepare self c) = x_raw self /\
                   y_raw (prepare self c) = y_raw self)
        by (unfold prepare; destruct (assign_spin c); repeat split).
      destruct Hp as [Hpa [Hph [Hpx Hpy]]]. rewrite Hpa.
      destruct (active self).
      - unfold record_history. cbn [history set_history].
        rewrite Hph, Hpx, Hpy, Hb.
        rewrite append_pop by (rewrite lastn_length; lia).
        apply lastn_snoc. unfold TRAIL_LENGTH. lia.
      - rewrite app_nil_r, Hph. exact Hb. }
    destruct (apply_call self c) as [self' | e self'].
    + cbn [final] in Hstep. rewrite app_assoc. apply IH. exact Hstep.
    + cbn [final] in *. exact Hstep.
Qed.

(** C6.  For a photon made by the constructor and any run of calls, the
    history is the last [TRAIL_LENGTH] of the points recorded so far, oldest
    first (so entries leave from the front, oldest first); its length never
    exceeds [TRAIL_LENGTH = 100]; and once more than [TRAIL_LENGTH] calls
    have found the photon active, its length is exactly [TRAIL_LENGTH]. *)
Theorem history_bounded_fifo (y w : R) (k : bool) (s : R) (cs : list call) :
  let fresh := Photon_init y w k s in
  let h := history (final (calls fresh cs)) in
  h = lastn TRAIL_LENGTH (recorded fresh cs) /\
  (length h <= TRAIL_LENGTH)%nat /\
  ((TRAIL_LENGTH < length (recorded fresh cs))%nat -> length h = TRAIL_LENGTH).
Proof.
  intros fresh h.
  assert (Hh : h = lastn TRAIL_LENGTH (recorded fresh cs)).
  { unfold h. rewrite (calls_history cs fresh []); reflexivity. }
  split; [exact Hh |].
  rewrite Hh, lastn_length. split; lia.
Qed.

(** With no mass a photon on the axis keeps its velocity. *)
Lemma drift_step (self : Photon) :
  active self = true -> is_kerr self = false ->
  y_raw self = 0 -> snd (vel self) = 0 -> 0 < x_raw self ->
  exists self',
    update self 0 0 0 = Returned self' /\
    active self' = true /\ is_kerr self' = false /\
    y_raw self' = 0 /\ snd (vel self') = 0 /\
    fst (vel self') = fst (vel self) /\
    x_raw self' = x_raw self + fst (vel self) * DT.
Proof.
  intros Ha Hk Hy Hvy Hx.
  assert (Hr : radius self = x_raw self).
  { unfold radius. rewrite Hy. apply sqrt_of_squares; lra. }
  rewrite update_active_outside by (try assumption; rewrite Hr; lra).
  assert (Hacc : SpacetimeModel.acceleration (x_raw self, y_raw self) (vel self)
                   0 (SpacetimeModel.spin_of self) = (0, 0)).
  { unfold SpacetimeModel.acceleration, SpacetimeModel.spin_of.
    rewrite Hk. destruct (vel self). cbn. unfold Rdiv. f_equal; ring. }
  rewrite Hacc. cbn [fst snd].
  destruct (integrate_motion (record_history self 0 0) 0 0)
    as [self' [Hi [Hv [Hx' [Hy' [_ [Hact [Hk' _]]]]]]]].
  exists self'. split; [exact Hi |].
  cbn [vel x_raw y_raw active is_kerr record_history set_history] in Hv, Hx', Hy', Hact, Hk'.
  rewrite Hv in *. cbn [fst snd] in *.
  repeat split; try congruence; try lra.
  rewrite Hy', Hy, Hvy. lra.
Qed.

Lemma drift_recorded (n : nat) :
  forall self : Photon,
    active self = true -> is_kerr self = false ->
    y_raw self = 0 -> snd (vel self) = 0 -> 0 < x_raw self ->
    0 <= fst (vel self) ->
    length (recorded self (repeat Examples.free_call n)) = n.
Proof.
  induction n as [| n IH]; intros self Ha Hk Hy Hvy Hx Hvx; [reflexivity |].
  cbn [repeat recorded]. unfold apply_call. cbn [prepare Examples.free_call assign_spin
    call_mass call_center_x call_center_y].
  destruct (drift_step self Ha Hk Hy Hvy Hx)
    as [self' [Hu [Ha' [Hk' [Hy' [Hvy' [Hvx' Hx']]]]]]].
  rewrite Hu, Ha. cbn [app length]. f_equal.
  apply IH; try assumption.
  - rewrite Hx'. unfold DT. nra.
  - rewrite Hvx'. exact Hvx.
Qed.

Lemma history_bounded_fifo_witness :
  (TRAIL_LENGTH < length (recorded Examples.drifting (repeat Examples.free_call 101)))%nat /\
  length (history (final (calls Examples.drifting (repeat Examples.free_call 101)))) = TRAIL_LENGTH.
Proof.
  assert (H : (TRAIL_LENGTH < length (recorded Examples.drifting (repeat Examples.free_call 101)))%nat).
  { rewrite drift_recorded; try reflexivity; cbn; try lra. unfold TRAIL_LENGTH. lia. }
  split; [exact H |].
  exact (proj2 (proj2 (history_bounded_fifo 0 (-2) false 0 (repeat Examples.free_call 101))) H).
Defined.

(** ** Zero spin *)

(** The engine reads the photon through [vel], [is_kerr] and [hole_spin]
    only, and the last two only through the test of line 94. *)
Lemma physics_engine_no_spin (self other : Photon) (mass dx dy r2 r : R) :
  vel self = vel other ->
  is_kerr self && neq (hole_spin self) 0 = false ->
  is_kerr other && neq (hole_spin other) 0 = false ->
  physics_engine self mass dx dy r2 r = physics_engine other mass dx dy r2 r.
Proof.
  intros Hv Hs Ho. unfold physics_engine. rewrite Hs, Ho, Hv. reflexivity.
Qed.

Lemma integrate_observe (self other : Photon) (ax ay : R) :
  motion_state self = motion_state other ->
  observe (integrate self ax ay) = observe (integrate other ax ay).
Proof.
  intros H. unfold motion_state in H. injection H as Hx Hy Hv Hh Ha Hd.
  unfold integrate. rewrite Hx, Hy, Hv.
  destruct (Py.sqrt _) as [d | e].
  - destruct (Rgt_dec d WIDTH); cbn; unfold motion_state; cbn;
      rewrite ?Hh, ?Ha, ?Hd; reflexivity.
  - cbn. unfold motion_state. cbn. rewrite Hh, Ha, Hd. reflexivity.
Qed.

(** C5.  A call on a photon with the Kerr flag set and spin 0 and a call on
    the same photon with the Kerr flag unset (whatever its spin) end the
    same way, returning or raising alike, with the same position, velocity,
    history, [active] and [dead]. *)
Theorem zero_spin_is_schwarzschild (self : Photon) (mass cx cy s : R) :
  observe (update (set_hole_spin (set_is_kerr self true) 0) mass cx cy) =
  observe (update (set_hole_spin (set_is_kerr self false) s) mass cx cy).
Proof.
  unfold update. cbn [active set_hole_spin set_is_kerr].
  destruct (active self) eqn:Ha; cbn [negb].
  - cbn [record_history set_history x_raw y_raw history].
    destruct (Py.sqrt _) as [r | e].
    + destruct (Rlt_dec r (2 * mass)).
      * cbn. unfold motion_state. reflexivity.
      * match goal with
        | |- observe (match physics_engine ?a _ _ _ _ _ with _ => _ end) =
             observe (match physics_engine ?b _ _ _ _ _ with _ => _ end) =>
          rewrite (physics_engine_no_spin a b)
        end.
        -- destruct (physics_engine _ _ _ _ _ _) as [[ax ay] | e].
           ++ apply integrate_observe. reflexivity.
           ++ reflexivity.
        -- reflexivity.
        -- cbn [is_kerr hole_spin]. rewrite neq_false. reflexivity.
        -- reflexivity.
    + reflexivity.
  - cbn. unfold motion_state. cbn. rewrite Ha. reflexivity.
Qed.

(** ** The captured point in the trail *)

Lemma record_history_last (self : Photon) (cx cy : R) :
  exists older,
    history (record_history self cx cy) =
    older ++ [(x_raw self + cx, y_raw self + cy)].
Proof.
  unfold record_history. cbn [history set_history].
  destruct (TRAIL_LENGTH <? _)%nat eqn:E.
  - destruct (history self) as [| a h]; cbn [app tl].
    + cbn in E. discriminate E.
    + exists h. reflexivity.
  - exists (history self). reflexivity.
Qed.

(** C10.  A call on an active photon leaves a history that ends with the
    photon's position at the start of the call (offset by the centre passed
    in), whatever happens next in the call.  When that position is inside
    [Rs = 2 * mass] the call returns with [active = false], so the last
    history point lies strictly within [Rs] of the centre; and when the
    photon already had a history, that list is what the drawing receives. *)
Theorem capture_point_recorded (self : Photon) (mass cx cy : R) :
  active self = true ->
  let q := (x_raw self + cx, y_raw self + cy) in
  let after := final (update self mass cx cy) in
  (exists older, history after = older ++ [q]) /\
  (radius self < 2 * mass ->
   update self mass cx cy = Returned after /\
   active after = false /\
   R_sqrt.sqrt ((fst q - cx) * (fst q - cx) + (snd q - cy) * (snd q - cy))
     < 2 * mass /\
   (history self <> [] -> trail after = Some (history after))).
Proof.
  intros Ha q after. split.
  - unfold after. rewrite update_history, Ha. apply record_history_last.
  - intros Hr. unfold after. rewrite (update_capture _ _ _ _ Ha Hr).
    cbn [final]. split; [reflexivity |]. split; [reflexivity |]. split.
    + unfold q. cbn [fst snd].
      replace (x_raw self + cx - cx) with (x_raw self) by ring.
      replace (y_raw self + cy - cy) with (y_raw self) by ring.
      exact Hr.
    + intros Hh. unfold trail, record_history.
      cbn [history set_active set_history].
      destruct (history self) as [| a h]; [contradiction |].
      destruct (TRAIL_LENGTH <? _)%nat eqn:E.
      * cbn [app tl]. rewrite length_app. cbn [length].
        cbn [app] in E. apply Nat.ltb_lt in E.
        cbn [length] in E. rewrite length_app in E. cbn [length] in E.
        unfold TRAIL_LENGTH in E.
        destruct (length h + 1 <? 2)%nat eqn:E2; [| reflexivity].
        apply Nat.ltb_lt in E2. lia.
      * cbn [app length]. rewrite length_app. cbn [length].
        destruct (S (length h + 1) <? 2)%nat eqn:E2; [| reflexivity].
        apply Nat.ltb_lt in E2. lia.
Qed.

Lemma radius_falling : radius Examples.falling = 50.
Proof. unfold radius. cbn. apply sqrt_of_squares; lra. Qed.

Lemma capture_point_recorded_witness :
  active Examples.falling = true /\
  radius Examples.falling < 2 * 30 /\
  history Examples.falling <> [] /\
  let after := final (update Examples.falling 30 0 0) in
  update Examples.falling 30 0 0 = Returned after /\
  active after = false /\
  R_sqrt.sqrt ((-50 + 0 - 0) * (-50 + 0 - 0) + (0 + 0 - 0) * (0 + 0 - 0))
    < 2 * 30 /\
  trail after = Some (history after).
Proof.
  assert (H1 : active Examples.falling = true) by reflexivity.
  assert (H2 : radius Examples.falling < 2 * 30) by (rewrite radius_falling; lra).
  assert (H3 : history Examples.falling <> []) by discriminate.
  repeat (split; [assumption |]).
  destruct (proj2 (capture_point_recorded Examples.falling 30 0 0 H1) H2)
    as [Hu [Ha [Hq Ht]]].
  repeat split; [exact Hu | exact Ha | exact Hq | exact (Ht H3)].
Defined.

(** ** The frame loop *)

(** With a positive mass the update loop over a collection returns, each
    photon replaced by what its call left. *)
Lemma update_each_returns (g : Photon -> Photon) (mass : R) (ps : list Photon) :
  0 < mass ->
  update_each (fun p => update (g p) mass 0 0) ps =
  Ok (map (fun p => final (update (g p) mass 0 0)) ps).
Proof.
  intros Hm. induction ps as [| p ps IH]; [reflexivity |].
  cbn [update_each map].
  destruct (update_returns (g p) mass 0 0 Hm) as [p' Hp].
  rewrite Hp, IH. reflexivity.
Qed.

Lemma updates_returns (st : SimulationState) :
  0 < mass st ->
  updates st =
  Ok (mkState (mass st) (spin st) (show_horizon st)
        (not_dead (map (fun p => final (update p (mass st) 0 0))
                       (particles_schwarz st)))
        (not_dead (map (fun p => final (update (set_hole_spin p (spin st))
                                          (mass st) 0 0))
                       (particles_kerr st)))
        (frame_count st)).
Proof.
  intros Hm. unfold updates.
  rewrite (update_each_returns (fun p => p)) by exact Hm. cbn [bind].
  rewrite (update_each_returns (fun p => set_hole_spin p (spin st))) by exact Hm.
  reflexivity.
Qed.

Lemma handle_key_mass (st : SimulationState) (k : key) :
  0 < mass st -> 0 < mass (handle_key st k).
Proof.
  intros Hm. destruct k; cbn; try exact Hm.
  - apply Rmin_glb_lt; lra.
  - apply Rlt_le_trans with 10; [lra | apply Rmax_r].
Qed.

Lemma handle_events_mass (events : list event) :
  forall (st : SimulationState) (running : bool),
    0 < mass st -> 0 < mass (fst (handle_events st running events)).
Proof.
  induction events as [| e events IH]; intros st running Hm; [exact Hm |].
  destruct e as [| k |]; cbn [handle_events]; try (apply IH; exact Hm).
  apply IH, handle_key_mass, Hm.
Qed.

(** Only the reset key touches the collections. *)
Lemma handle_events_particles (events : list event) :
  forall (st : SimulationState) (running : bool),
    Forall (fun e => e <> KEYDOWN K_r) events ->
    particles_schwarz (fst (handle_events st running events)) = particles_schwarz st /\
    particles_kerr (fst (handle_events st running events)) = particles_kerr st.
Proof.
  induction events as [| e events IH]; intros st running Hn; [split; reflexivity |].
  inversion Hn as [| e' events' He Hrest]; subst.
  destruct e as [| k |]; cbn [handle_events]; try (apply IH; exact Hrest).
  destruct (IH (handle_key st k) running Hrest) as [Hs Hk].
  rewrite Hs, Hk. destruct k; try (split; reflexivity). contradiction He. reflexivity.
Qed.

Example range_offsets :
  range (-100) 101 10 =
  [-100; -90; -80; -70; -60; -50; -40; -30; -20; -10; 0;
   10; 20; 30; 40; 50; 60; 70; 80; 90; 100]%Z.
Proof. reflexivity. Qed.

Lemma spawn_columns_length (offsets : list Z) :
  forall st : SimulationState,
    length (particles_schwarz (spawn_columns offsets st)) =
      (length (particles_schwarz st) + length offsets)%nat /\
    length (particles_kerr (spawn_columns offsets st)) =
      (length (particles_kerr st) + length offsets)%nat.
Proof.
  induction offsets as [| y offsets IH]; intros st.
  - cbn [spawn_columns length]. split; lia.
  - cbn [spawn_columns].
    match goal with |- context [spawn_columns offsets ?s] =>
      destruct (IH s) as [Hs Hk] end.
    rewrite Hs, Hk. cbn [particles_schwarz particles_kerr].
    rewrite !length_app. cbn [length]. split; lia.
Qed.

(** Every [SPAWN_RATE]-th frame adds 21 photons to each collection. *)
Lemma spawning_adds (st : SimulationState) :
  (S (frame_count st) mod SPAWN_RATE = 0)%nat ->
  length (particles_schwarz (spawning st)) = (length (particles_schwarz st) + 21)%nat /\
  length (particles_kerr (spawning st)) = (length (particles_kerr st) + 21)%nat.
Proof.
  intros H. unfold spawning. cbn [frame_count]. rewrite H. cbn [Nat.eqb].
  rewrite range_offsets.
  match goal with |- context [spawn_columns ?o ?s] =>
    destruct (spawn_columns_length o s) as [Hs Hk] end.
  rewrite Hs, Hk. cbn [particles_schwarz particles_kerr length]. split; reflexivity.
Qed.

Example Photon_init_spawn :
  x_raw (Photon_init 0 WIDTH false 0) = -400 /\
  vel (Photon_init 0 WIDTH false 0) = (4.0, 0.0).
Proof. cbn. unfold WIDTH. split; [lra | reflexivity]. Qed.

Lemma spawn_columns_keeps (offsets : list Z) :
  forall st : SimulationState,
    mass (spawn_columns offsets st) = mass st /\
    (forall p, In p (particles_schwarz st) ->
               In p (particles_schwarz (spawn_columns offsets st))) /\
    (forall p, In p (particles_kerr st) ->
               In p (particles_kerr (spawn_columns offsets st))).
Proof.
  induction offsets as [| y offsets IH]; intros st;
    [split; [reflexivity |]; split; intros p Hp; exact Hp |].
  cbn [spawn_columns].
  match goal with |- context [spawn_columns offsets ?s] =>
    destruct (IH s) as [Hm [Hs Hk]] end.
  cbn [mass particles_schwarz particles_kerr] in Hm, Hs, Hk.
  split; [exact Hm |]. split; intros p Hp.
  - apply Hs, in_or_app. left. exact Hp.
  - apply Hk, in_or_app. left. exact Hp.
Qed.

Lemma spawning_keeps (st : SimulationState) :
  mass (spawning st) = mass st /\
  (forall p, In p (particles_schwarz st) -> In p (particles_schwarz (spawning st))) /\
  (forall p, In p (particles_kerr st) -> In p (particles_kerr (spawning st))).
Proof.
  unfold spawning. cbn [frame_count].
  destruct (_ =? 0)%nat.
  - match goal with |- context [spawn_columns ?o ?s] =>
      destruct (spawn_columns_keeps o s) as [Hm [Hs Hk]] end.
    cbn [mass particles_schwarz particles_kerr] in Hm, Hs, Hk.
    split; [exact Hm |]. split; [exact Hs | exact Hk].
  - cbn [mass particles_schwarz particles_kerr].
    split; [reflexivity |]. split; intros p Hp; exact Hp.
Qed.

(** A captured photon that is not marked dead stays through one iteration
    without a reset; in the Kerr collection its [hole_spin] is reassigned. *)
Lemma frame_keeps_captured (st : SimulationState) (events : list event) (p : Photon) :
  0 < mass st -> Forall (fun e => e <> KEYDOWN K_r) events ->
  active p = false -> dead p = false ->
  exists st' running,
    frame st events = Ok (st', running) /\ 0 < mass st' /\
    (In p (particles_schwarz st) -> In p (particles_schwarz st')) /\
    (forall s, In (set_hole_spin p s) (particles_kerr st) ->
               In (set_hole_spin p (spin st')) (particles_kerr st')).
Proof.
  intros Hm Hn Ha Hd. unfold frame.
  pose proof (handle_events_mass events st true Hm) as Hm1.
  destruct (handle_events_particles events st true Hn) as [Hs1 Hk1].
  destruct (handle_events st true events) as [st1 running]. cbn [fst] in *.
  destruct (spawning_keeps st1) as [Hm2 [Hs2 Hk2]].
  assert (Hm2' : 0 < mass (spawning st1)) by (rewrite Hm2; exact Hm1).
  rewrite (updates_returns _ Hm2'). cbn [bind].
  eexists. exists running. split; [reflexivity |]. cbn [mass particles_schwarz
    particles_kerr spin].
  split; [exact Hm2' |]. split.
  - intros Hin. unfold not_dead. apply filter_In. split.
    + apply in_map_iff. exists p. split.
      * rewrite update_inactive by exact Ha. reflexivity.
      * apply Hs2. rewrite Hs1. exact Hin.
    + rewrite Hd. reflexivity.
  - intros s Hin. unfold not_dead. apply filter_In. split.
    + apply in_map_iff. exists (set_hole_spin p s). split.
      * rewrite update_inactive by exact Ha. reflexivity.
      * apply Hk2. rewrite Hk1. exact Hin.
    + cbn. rewrite Hd. reflexivity.
Qed.

Lemma main_loop_keeps_captured (frames : list (list event)) (p : Photon) :
  active p = false -> dead p = false -> no_reset frames ->
  forall st : SimulationState,
    0 < mass st ->
    exists st',
      main_loop st frames = Ok st' /\
      (In p (particles_schwarz st) -> In p (particles_schwarz st')) /\
      (forall s, In (set_hole_spin p s) (particles_kerr st) ->
                 exists s', In (set_hole_spin p s') (particles_kerr st')).
Proof.
  intros Ha Hd Hn. induction Hn as [| events frames He Hrest IH]; intros st Hm.
  - exists st. split; [reflexivity |]. split; [auto |].
    intros s Hin. exists s. exact Hin.
  - cbn [main_loop].
    destruct (frame_keeps_captured st events p Hm He Ha Hd)
      as [st1 [running [Hf [Hm1 [Hs1 Hk1]]]]].
    rewrite Hf. cbn [bind]. destruct running.
    + destruct (IH st1 Hm1) as [st' [Hl [Hs' Hk']]].
      exists st'. split; [exact Hl |]. split.
      * intros Hin. apply Hs', Hs1, Hin.
      * intros s Hin. apply (Hk' (spin st1)), (Hk1 s), Hin.
    + exists st1. split; [reflexivity |]. split; [exact Hs1 |].
      intros s Hin. exists (spin st1). apply (Hk1 s), Hin.
Qed.

Lemma set_hole_spin_same (p : Photon) : set_hole_spin p (hole_spin p) = p.
Proof. destruct p. reflexivity. Qed.

(** C9 (amended).  A captured photon ([active = false]) is returned
    unchanged by every call, so its [dead] flag stays as it is and its
    motion state is frozen; and through any number of iterations of the
    frame loop in which the reset key is not pressed (with a positive mass,
    which the key handling keeps positive) it is still in its collection:
    as it is in the Schwarzschild collection, with [hole_spin] reassigned
    from the current spin in the Kerr collection. *)
Theorem captured_photon_persists (st : SimulationState)
  (frames : list (list event)) (p : Photon) :
  0 < mass st -> no_reset frames -> active p = false -> dead p = false ->
  (forall mass cx cy, update p mass cx cy = Returned p) /\
  (forall cs, exists p', calls p cs = Returned p' /\
                         dead p' = false /\ motion_state p' = motion_state p) /\
  exists st',
    main_loop st frames = Ok st' /\
    (In p (particles_schwarz st) -> In p (particles_schwarz st')) /\
    (In p (particles_kerr st) ->
     exists s, In (set_hole_spin p s) (particles_kerr st')).
Proof.
  intros Hm Hn Ha Hd. split; [| split].
  - intros m cx cy. apply update_inactive, Ha.
  - intros cs. destruct (calls_inactive p cs Ha) as [p' [Hc Hs]].
    exists p'. split; [exact Hc |]. split; [| exact Hs].
    unfold motion_state in Hs. injection Hs as _ _ _ _ _ Hd'. congruence.
  - destruct (main_loop_keeps_captured frames p Ha Hd Hn st Hm)
      as [st' [Hl [Hs Hk]]].
    exists st'. split; [exact Hl |]. split; [exact Hs |].
    intros Hin. apply (Hk (hole_spin p)). rewrite set_hole_spin_same. exact Hin.
Qed.

Lemma captured_photon_persists_witness :
  0 < mass Examples.one_parked /\ no_reset Examples.two_frames /\
  active Examples.parked = false /\ dead Examples.parked = false /\
  exists st',
    main_loop Examples.one_parked Examples.two_frames = Ok st' /\
    In Examples.parked (particles_schwarz st').
Proof.
  assert (H1 : 0 < mass Examples.one_parked) by (cbn; lra).
  assert (H2 : no_reset Examples.two_frames)
    by (repeat constructor; discriminate).
  assert (H3 : active Examples.parked = false) by reflexivity.
  assert (H4 : dead Examples.parked = false) by reflexivity.
  repeat (split; [assumption |]).
  destruct (captured_photon_persists Examples.one_parked Examples.two_frames
              Examples.parked H1 H2 H3 H4) as [_ [_ [st' [Hl [Hs _]]]]].
  exists st'. split; [exact Hl |]. apply Hs. left. reflexivity.
Defined.

(** C9 as stated fails: a captured photon does not persist
    indefinitely.  The reset key empties both collections in the event
    handling, before the filter: after one frame whose events are the key
    [r], the captured photon [parked] is gone from its collection. *)
Lemma reset_removes_captured :
  0 < mass Examples.one_parked /\
  active Examples.parked = false /\ dead Examples.parked = false /\
  In Examples.parked (particles_schwarz Examples.one_parked) /\
  exists st',
    main_loop Examples.one_parked [[KEYDOWN K_r]] = Ok st' /\
    ~ In Examples.parked (particles_schwarz st').
Proof.
  split; [cbn; lra |]. split; [reflexivity |]. split; [reflexivity |].
  split; [left; reflexivity |].
  eexists. split; [reflexivity |]. cbn. tauto.
Qed.

(** ** What the filter removes *)

Lemma radius_pow2 (self : Photon) :
  R_sqrt.sqrt (x_raw self ^ 2 + y_raw self ^ 2) = radius self.
Proof. unfold radius. f_equal. ring. Qed.

(** When a call sets (or leaves) the [dead] mark. *)
Lemma update_dead_iff (self : Photon) (mass cx cy : R) :
  0 < mass ->
  let self' := final (update self mass cx cy) in
  dead self' = true <->
  dead self = true \/
  (active self = true /\ ~ radius self < 2 * mass /\ radius self' > WIDTH).
Proof.
  intros Hm self'. unfold self'. clear self'.
  destruct (active self) eqn:Ha.
  - destruct (Rlt_dec (radius self) (2 * mass)) as [Hr | Hr].
    + rewrite (update_capture _ _ _ _ Ha Hr). cbn [final dead set_active record_history set_history].
      split; [intros H; left; exact H | intros [H | [_ [H _]]]; [exact H | contradiction]].
    + rewrite update_active_outside by (try assumption; lra).
      match goal with
      | |- context [integrate ?s ?ax ?ay] =>
        destruct (integrate_motion s ax ay)
          as [self' [Hi [_ [_ [_ [_ [_ [_ [_ Hd]]]]]]]]]
      end.
      rewrite Hi. cbn [final]. rewrite radius_pow2 in Hd.
      cbn [dead record_history set_history] in Hd. rewrite Hd.
      split; intros [H | H]; auto. destruct H as [_ [_ H]]. right. exact H.
  - rewrite (update_inactive _ _ _ _ Ha). cbn [final].
    split; [intros H; left; exact H | intros [H | [H _]]; [exact H | discriminate H]].
Qed.

(** C4 (amended).  With a positive mass the update-and-filter pass
    returns, and each collection becomes the updated photons that are not
    marked dead.  A photon is marked dead after its call exactly when it
    was marked before or the call moved it (active, not inside
    [Rs = 2 * mass]) to a distance above [WIDTH = 800]; a photon found
    inside [Rs] keeps its mark and becomes inactive, so capture removes
    nothing. *)
Theorem removed_iff_too_far (st : SimulationState) :
  0 < mass st ->
  exists st',
    updates st = Ok st' /\
    (forall q, In q (particles_schwarz st') <->
       exists p, In p (particles_schwarz st) /\
                 q = final (update p (mass st) 0 0) /\ dead q = false) /\
    (forall q, In q (particles_kerr st') <->
       exists p, In p (particles_kerr st) /\
                 q = final (update (set_hole_spin p (spin st)) (mass st) 0 0) /\
                 dead q = false) /\
    forall p,
      let p' := final (update p (mass st) 0 0) in
      (dead p' = true <->
       dead p = true \/
       (active p = true /\ ~ radius p < 2 * mass st /\ radius p' > WIDTH)) /\
      (radius p < 2 * mass st -> dead p' = dead p /\ active p' = false).
Proof.
  intros Hm. rewrite (updates_returns st Hm). eexists. split; [reflexivity |].
  cbn [particles_schwarz particles_kerr]. unfold not_dead.
  split; [| split].
  - intros q. rewrite filter_In, in_map_iff. split.
    + intros [[p [Hq Hp]] Hd]. exists p. split; [exact Hp |]. split; [auto |].
      destruct (dead q); [discriminate Hd | reflexivity].
    + intros [p [Hp [Hq Hd]]]. split; [exists p; auto |]. rewrite Hd. reflexivity.
  - intros q. rewrite filter_In, in_map_iff. split.
    + intros [[p [Hq Hp]] Hd]. exists p. split; [exact Hp |]. split; [auto |].
      destruct (dead q); [discriminate Hd | reflexivity].
    + intros [p [Hp [Hq Hd]]]. split; [exists p; auto |]. rewrite Hd. reflexivity.
  - intros p. split; [apply update_dead_iff; exact Hm |].
    intros Hr. destruct (active p) eqn:Ha.
    + rewrite (update_capture _ _ _ _ Ha Hr). split; reflexivity.
    + rewrite (update_inactive _ _ _ _ Ha). split; [reflexivity | exact Ha].
Qed.

Lemma removed_iff_too_far_witness :
  0 < mass Examples.one_inside /\
  exists st',
    updates Examples.one_inside = Ok st' /\
    (forall q, In q (particles_schwarz st') <->
       exists p, In p (particles_schwarz Examples.one_inside) /\
                 q = final (update p (mass Examples.one_inside) 0 0) /\ dead q = false) /\
    (forall q, In q (particles_kerr st') <->
       exists p, In p (particles_kerr Examples.one_inside) /\
                 q = final (update (set_hole_spin p (spin Examples.one_inside))
                              (mass Examples.one_inside) 0 0) /\
                 dead q = false) /\
    forall p,
      let p' := final (update p (mass Examples.one_inside) 0 0) in
      (dead p' = true <->
       dead p = true \/
       (active p = true /\ ~ radius p < 2 * mass Examples.one_inside /\ radius p' > WIDTH)) /\
      (radius p < 2 * mass Examples.one_inside -> dead p' = dead p /\ active p' = false).
Proof.
  assert (H : 0 < mass Examples.one_inside) by (cbn; lra).
  split; [exact H | exact (removed_iff_too_far Examples.one_inside H)].
Defined.

(** C4 as stated fails: the photon at radius 50, inside [Rs = 60], is
    captured by the pass and is still in its collection afterwards. *)
Lemma captured_photon_not_removed :
  exists st' p,
    updates Examples.one_inside = Ok st' /\
    In p (particles_schwarz st') /\
    active p = false /\ radius p < 2 * mass st'.
Proof.
  assert (Hr : radius Examples.inside < 2 * 30) by (rewrite radius_inside; lra).
  rewrite updates_returns by (cbn; lra).
  eexists. exists (set_active (record_history Examples.inside 0 0) false).
  split; [reflexivity |]. cbn [particles_schwarz Examples.one_inside map mass].
  rewrite (update_capture Examples.inside 30 0 0 eq_refl Hr). cbn [final].
  split; [left; reflexivity |]. split; [reflexivity |]. exact Hr.
Qed.

(** ** No division by zero *)







(** ** Mirror symmetry *)

Lemma sign_opp (x : R) : SpacetimeModel.sign (- x) = - SpacetimeModel.sign x.
Proof.
  unfold SpacetimeModel.sign.
  destruct (Rlt_dec (- x) 0), (Rlt_dec x 0), (Rlt_dec 0 (- x)), (Rlt_dec 0 x);
    lra.
Qed.

Lemma radius_mirror (cy : R) (self : Photon) :
  radius (mirror cy self) = radius self.
Proof. unfold radius. cbn [mirror x_raw y_raw]. f_equal. ring. Qed.

(** The model's acceleration under the reflection: same along [x],
    opposite along [y]. *)
Lemma acceleration_mirror (x y vx vy mass : R) (sp : option R) :
  SpacetimeModel.acceleration (x, - y) (vx, - vy) mass (option_map Ropp sp) =
  (fst (SpacetimeModel.acceleration (x, y) (vx, vy) mass sp),
   - snd (SpacetimeModel.acceleration (x, y) (vx, vy) mass sp)).
Proof.
  unfold SpacetimeModel.acceleration.
  replace (x * x + - y * - y) with (x * x + y * y) by ring.
  replace (x * - vy - - y * vx) with (- (x * vy - y * vx)) by ring.
  set (r := R_sqrt.sqrt (x * x + y * y)).
  set (Lz := x * vy - y * vx).
  destruct sp as [s |]; cbn [option_map fst snd].
  - destruct (Req_dec_T s 0) as [Hs | Hs], (Req_dec_T (- s) 0) as [Hs' | Hs'];
      try lra; cbn [fst snd].
    + f_equal; unfold Rdiv; ring.
    + rewrite !sign_opp, Rabs_Ropp. f_equal; unfold Rdiv; ring.
  - f_equal; unfold Rdiv; ring.
Qed.

Lemma spin_of_mirror (cy : R) (self : Photon) :
  SpacetimeModel.spin_of (mirror cy self) =
  option_map Ropp (SpacetimeModel.spin_of self).
Proof.
  unfold SpacetimeModel.spin_of. cbn [mirror is_kerr hole_spin].
  destruct (is_kerr self); reflexivity.
Qed.

Lemma append_pop_map {A B : Type} (f : A -> B) (h : list A) (q : A) :
  (if (TRAIL_LENGTH <? length (map f h ++ [f q]))%nat
   then tl (map f h ++ [f q]) else map f h ++ [f q]) =
  map f (if (TRAIL_LENGTH <? length (h ++ [q]))%nat
         then tl (h ++ [q]) else h ++ [q]).
Proof.
  rewrite !length_app, length_map. cbn [length].
  destruct (TRAIL_LENGTH <? length h + 1)%nat.
  - destruct h; [reflexivity |]. cbn [map app tl]. rewrite map_app. reflexivity.
  - rewrite map_app. reflexivity.
Qed.

Lemma record_history_mirror (cy cx : R) (self : Photon) :
  record_history (mirror cy self) cx cy = mirror cy (record_history self cx cy).
Proof.
  unfold record_history, mirror, set_history.
  cbn [pos x_raw y_raw vel history active is_kerr hole_spin dead].
  set (f := fun q : R * R => (fst q, cy + cy - snd q)).
  assert (Hq : (x_raw self + cx, - y_raw self + cy) =
               f (x_raw self + cx, y_raw self + cy))
    by (unfold f; cbn [fst snd]; f_equal; ring).
  rewrite Hq, (append_pop_map f). reflexivity.
Qed.

Lemma integrate_mirror (cy : R) (self : Photon) (ax ay : R) :
  integrate (mirror cy self) ax (- ay) =
  mirror_outcome cy (integrate self ax ay).
Proof.
  unfold integrate. cbn [mirror vel x_raw y_raw fst snd].
  set (vx := fst (vel self) + ax * DT).
  set (vy := snd (vel self) + ay * DT).
  replace (- snd (vel self) + - ay * DT) with (- vy) by (unfold vy; ring).
  replace (- y_raw self + - vy * DT) with (- (y_raw self + vy * DT)) by ring.
  set (x := x_raw self + vx * DT).
  set (y := y_raw self + vy * DT).
  replace (x ^ 2 + (- y) ^ 2) with (x ^ 2 + y ^ 2) by ring.
  destruct (Py.sqrt (x ^ 2 + y ^ 2)) as [d | e].
  - destruct (Rgt_dec d WIDTH); reflexivity.
  - reflexivity.
Qed.

Lemma physics_engine_origin (self : Photon) (mass dx dy r2 : R) :
  physics_engine self mass dx dy r2 0 = Err ZeroDivisionError.
Proof.
  unfold physics_engine, div.
  destruct (Req_dec_T 0 0); [reflexivity | contradiction].
Qed.

Lemma update_mirror (cy : R) (self : Photon) (mass cx : R) :
  update (mirror cy self) mass cx cy = mirror_outcome cy (update self mass cx cy).
Proof.
  destruct (active self) eqn:Ha.
  - destruct (Rlt_dec (radius self) (2 * mass)) as [Hr | Hr].
    + rewrite (update_capture self) by assumption.
      rewrite update_capture by (try rewrite radius_mirror; assumption).
      rewrite record_history_mirror. reflexivity.
    + destruct (Req_dec_T (radius self) 0) as [H0 | H0].
      * unfold update. cbn [mirror active]. rewrite Ha. cbn [negb].
        rewrite !sqrt_ok by apply sum_squares_nonneg.
        fold (mirror cy self). rewrite record_history_mirror.
        cbn [record_history set_history mirror x_raw y_raw].
        fold (radius self).
        replace (R_sqrt.sqrt (x_raw self * x_raw self + - y_raw self * - y_raw self))
          with (radius self) by (unfold radius; f_equal; ring).
        destruct (Rlt_dec (radius self) (2 * mass)); [contradiction |].
        rewrite H0, !physics_engine_origin. reflexivity.
      * rewrite (update_active_outside self) by assumption.
        rewrite update_active_outside by (try rewrite radius_mirror; assumption).
        rewrite record_history_mirror, spin_of_mirror. cbn [mirror x_raw y_raw vel].
        destruct (vel self) as [vx vy] eqn:Hv. cbn [fst snd].
        rewrite acceleration_mirror. cbn [fst snd].
        apply integrate_mirror.
  - rewrite (update_inactive self) by exact Ha.
    rewrite update_inactive by exact Ha. reflexivity.
Qed.

Lemma prepare_mirror (cy : R) (self : Photon) (c : call) :
  prepare (mirror cy self) (mirror_call c) = mirror cy (prepare self c).
Proof.
  unfold prepare, mirror_call. cbn [assign_spin].
  destruct (assign_spin c); reflexivity.
Qed.

(** With the centre at the origin, as in every call of the frame loop,
    the reflection of the history is [y -> -y]. *)
Lemma mirror_history_origin (self : Photon) :
  history (mirror 0 self) = map (fun q => (fst q, - snd q)) (history self).
Proof.
  cbn [mirror history]. apply map_ext. intros q. f_equal. ring.
Qed.

(** C8.  Reflecting a photon across the horizontal axis through the hole
    ([y -> -y], [vy -> -vy], history points reflected about the line
    [y = center_y] they are stored around) and negating the spin, then
    calling [update], gives the reflection of what [update] gives on the
    original, returning or raising alike; and so for whole runs of calls
    with mirrored spin assignments. *)
Theorem mirror_commutes (cy : R) (self : Photon) :
  (forall mass cx,
     update (mirror cy self) mass cx cy =
     mirror_outcome cy (update self mass cx cy)) /\
  (forall cs,
     Forall (fun c => call_center_y c = cy) cs ->
     calls (mirror cy self) (map mirror_call cs) =
     mirror_outcome cy (calls self cs)).
Proof.
  split; [intros mass cx; apply update_mirror |].
  intros cs Hcs. revert self.
  induction Hcs as [| c cs Hc Hrest IH]; intros self; [reflexivity |].
  cbn [map calls]. unfold apply_call.
  rewrite prepare_mirror. cbn [mirror_call call_mass call_center_x call_center_y].
  rewrite Hc, update_mirror.
  destruct (update (prepare self c) (call_mass c) (call_center_x c) cy)
    as [self' | e self']; cbn [mirror_outcome]; [apply IH | reflexivity].
Qed.
(** ** The shader's force and the particle integrator's *)


Lemma G_one : G = 1.
Proof. unfold G. lra. Qed.










(** ** Instances *)


Lemma mirror_commutes_witness :
  Forall (fun c => call_center_y c = 0) [Examples.kerr_call] /\
  calls (mirror 0 Examples.prograde) (map mirror_call [Examples.kerr_call]) =
  mirror_outcome 0 (calls Examples.prograde [Examples.kerr_call]).
Proof.
  assert (H : Forall (fun c => call_center_y c = 0) [Examples.kerr_call])
    by (repeat constructor).
  split; [exact H |].
  exact (proj2 (mirror_commutes 0 Examples.prograde) [Examples.kerr_call] H).
Defined.


(** * Properties beyond the claims *)

Import Observables.

(** * Further properties of sideview.py *)

(** ** Key handling *)

Lemma handle_key_in_range (st : SimulationState) (k : key) :
  in_range st -> in_range (handle_key st k).
Proof.
  unfold in_range. intros [[Hm1 Hm2] [Hs1 Hs2]].
  destruct k; cbn [handle_key mass spin]; try (split; split; assumption).
  - split; [| split; assumption]. unfold Rmin.
    destruct (Rle_dec (mass st + 5) 100); lra.
  - split; [| split; assumption]. unfold Rmax.
    destruct (Rle_dec (mass st - 5) 10); lra.
  - split; [split; assumption |]. unfold Rmin.
    destruct (Rle_dec (spin st + 0.1) 1.0); lra.
  - split; [split; assumption |]. unfold Rmax.
    destruct (Rle_dec (spin st - 0.1) (-1.0)); lra.
Qed.

(** X1.  Whatever keys arrive, the key handling keeps the mass within
    [10, 100] and the spin within [-1, 1] once they are there. *)
Theorem handle_events_in_range (events : list event) :
  forall (st : SimulationState) (running : bool),
    in_range st -> in_range (fst (handle_events st running events)).
Proof.
  induction events as [| e events IH]; intros st running H; [exact H |].
  destruct e as [| k |]; cbn [handle_events]; try (apply IH; exact H).
  apply IH, handle_key_in_range, H.
Qed.

Lemma handle_events_in_range_witness :
  in_range SimulationState_init /\
  in_range (fst (handle_events SimulationState_init true
                   [KEYDOWN K_UP; KEYDOWN K_RIGHT; KEYDOWN K_RIGHT])).
Proof.
  assert (H : in_range SimulationState_init)
    by (unfold in_range; cbn; lra).
  split; [exact H |].
  exact (handle_events_in_range _ SimulationState_init true H).
Defined.

(** ** Spawning *)

Lemma spawn_columns_appends (offsets : list Z) :
  forall st : SimulationState,
    let st' := spawn_columns offsets st in
    particles_schwarz st' =
      particles_schwarz st
      ++ map (fun y_off => Photon_init (IZR y_off) WIDTH false 0) offsets /\
    particles_kerr st' =
      particles_kerr st
      ++ map (fun y_off => Photon_init (IZR y_off) WIDTH true (spin st)) offsets /\
    mass st' = mass st /\ spin st' = spin st /\
    frame_count st' = frame_count st.
Proof.
  induction offsets as [| y offsets IH]; intros st.
  - cbn [spawn_columns map]. rewrite !app_nil_r. repeat split.
  - cbn [spawn_columns map].
    match goal with |- context [spawn_columns offsets ?s] =>
      destruct (IH s) as [Hs [Hk [Hm [Hsp Hf]]]] end.
    cbv zeta. rewrite Hs, Hk, Hm, Hsp, Hf.
    cbn [particles_schwarz particles_kerr mass spin frame_count].
    rewrite <- !app_assoc. repeat split.
Qed.

(** X4.  Spawning counts the frame and changes neither mass nor spin.
    On every [SPAWN_RATE]-th frame it appends, in order, one fresh photon
    per offset -100, -90, ..., 100 to each collection (with spin 0 and no
    Kerr flag, or with the current spin and the flag); on every other
    frame it leaves both collections as they are. *)
Theorem spawning_cadence (st : SimulationState) :
  let st' := spawning st in
  frame_count st' = S (frame_count st) /\
  mass st' = mass st /\ spin st' = spin st /\
  ((S (frame_count st) mod SPAWN_RATE = 0)%nat ->
   particles_schwarz st' = particles_schwarz st ++ spawned false 0 /\
   particles_kerr st' = particles_kerr st ++ spawned true (spin st)) /\
  ((S (frame_count st) mod SPAWN_RATE <> 0)%nat ->
   particles_schwarz st' = particles_schwarz st /\
   particles_kerr st' = particles_kerr st).
Proof.
  unfold spawning. cbn [frame_count].
  destruct (S (frame_count st) mod SPAWN_RATE =? 0)%nat eqn:E.
  - match goal with |- context [spawn_columns ?o ?s] =>
      destruct (spawn_columns_appends o s) as [Hs [Hk [Hm [Hsp Hf]]]] end.
    cbv zeta. rewrite Hs, Hk, Hm, Hsp, Hf.
    cbn [particles_schwarz particles_kerr mass spin frame_count].
    apply Nat.eqb_eq in E.
    split; [reflexivity |]. split; [reflexivity |]. split; [reflexivity |].
    split; [intros _; split; reflexivity | intros H; contradiction].
  - cbn [particles_schwarz particles_kerr mass spin frame_count].
    apply Nat.eqb_neq in E.
    split; [reflexivity |]. split; [reflexivity |]. split; [reflexivity |].
    split; [intros H; contradiction | intros _; split; reflexivity].
Qed.

Lemma spawned_length (kerr : bool) (s : R) : length (spawned kerr s) = 21%nat.
Proof. unfold spawned. rewrite length_map, range_offsets. reflexivity. Qed.

Lemma spawned_fresh (kerr : bool) (s : R) (p : Photon) :
  In p (spawned kerr s) ->
  x_raw p = -400 /\ -100 <= y_raw p <= 100 /\ vel p = (4.0, 0.0) /\
  history p = [] /\ active p = true /\ dead p = false /\
  is_kerr p = kerr /\ hole_spin p = s.
Proof.
  unfold spawned. rewrite range_offsets. intros H.
  apply in_map_iff in H. destruct H as [y [<- Hy]].
  cbn [Photon_init x_raw y_raw vel history active dead is_kerr hole_spin].
  split; [unfold WIDTH; lra |]. split; [| repeat split].
  cbn [In] in Hy.
  repeat (destruct Hy as [<- | Hy]; [lra |]). contradiction.
Qed.

(** ** The frame loop from the initial state *)

(** A call never touches [pos], [is_kerr] or [hole_spin]. *)
Lemma integrate_fields (self : Photon) (ax ay : R) :
  is_kerr (final (integrate self ax ay)) = is_kerr self /\
  hole_spin (final (integrate self ax ay)) = hole_spin self /\
  pos (final (integrate self ax ay)) = pos self.
Proof.
  unfold integrate. destruct (Py.sqrt _); [| repeat split].
  destruct (Rgt_dec _ _); repeat split.
Qed.

Lemma update_fields (self : Photon) (mass cx cy : R) :
  is_kerr (final (update self mass cx cy)) = is_kerr self /\
  hole_spin (final (update self mass cx cy)) = hole_spin self /\
  pos (final (update self mass cx cy)) = pos self.
Proof.
  unfold update. destruct (active self); cbn [negb]; [| repeat split].
  destruct (Py.sqrt _); [| repeat split].
  destruct (Rlt_dec _ _); [repeat split |].
  destruct (physics_engine _ _ _ _ _ _) as [[ax ay] |]; [| repeat split].
  exact (integrate_fields (record_history self cx cy) ax ay).
Qed.

(** Event handling never adds a photon. *)
Lemma handle_events_no_new (events : list event) :
  forall (st : SimulationState) (running : bool) (p : Photon),
    (In p (particles_schwarz (fst (handle_events st running events))) ->
     In p (particles_schwarz st)) /\
    (In p (particles_kerr (fst (handle_events st running events))) ->
     In p (particles_kerr st)).
Proof.
  induction events as [| e events IH]; intros st running p; [split; auto |].
  destruct e as [| k |]; cbn [handle_events]; try apply IH.
  destruct (IH (handle_key st k) running p) as [Hs Hk].
  split; intros H.
  - apply Hs in H. destruct k; cbn in H; try exact H; contradiction.
  - apply Hk in H. destruct k; cbn in H; try exact H; contradiction.
Qed.

Lemma handle_events_keep_range (events : list event) :
  forall (st : SimulationState) (running : bool),
    in_range st -> in_range (fst (handle_events st running events)).
Proof.
  induction events as [| e events IH]; intros st running H; [exact H |].
  destruct e as [| k |]; cbn [handle_events].
  - apply IH, H.
  - apply IH, handle_key_in_range, H.
  - apply IH, H.
Qed.

(** What spawning leaves in the collections: what was there, and the
    fresh photons of this frame. *)
Lemma spawning_members (st : SimulationState) :
  mass (spawning st) = mass st /\ spin (spawning st) = spin st /\
  (forall p, In p (particles_schwarz (spawning st)) ->
             In p (particles_schwarz st) \/ In p (spawned false 0)) /\
  (forall p, In p (particles_kerr (spawning st)) ->
             In p (particles_kerr st) \/ In p (spawned true (spin st))).
Proof.
  unfold spawning. cbn [frame_count].
  destruct (S (frame_count st) mod SPAWN_RATE =? 0)%nat.
  - match goal with |- context [spawn_columns ?o ?s] =>
      destruct (spawn_columns_appends o s) as [Hs [Hk [Hm [Hsp _]]]] end.
    cbv zeta in Hs, Hk, Hm, Hsp. rewrite Hs, Hk, Hm, Hsp.
    cbn [particles_schwarz particles_kerr mass spin].
    split; [reflexivity |]. split; [reflexivity |].
    split; intros p Hp; apply in_app_or in Hp; exact Hp.
  - cbn [particles_schwarz particles_kerr mass spin].
    split; [reflexivity |]. split; [reflexivity |].
    split; intros p Hp; left; exact Hp.
Qed.

Lemma tidy_flags (st : SimulationState) : tidy st -> flags st.
Proof.
  intros [Hs Hk]. split.
  - eapply Forall_impl; [| exact Hs]. intros p [_ H]. exact H.
  - eapply Forall_impl; [| exact Hk]. intros p [_ [H _]]. exact H.
Qed.

Lemma frame_tidy (st : SimulationState) (events : list event) :
  in_range st -> flags st ->
  exists st' running,
    frame st events = Ok (st', running) /\ in_range st' /\ tidy st' /\
    running = snd (handle_events st true events).
Proof.
  intros Hr [Hfs Hfk]. unfold frame.
  pose proof (handle_events_keep_range events st true Hr) as Hr1.
  pose proof (handle_events_no_new events st true) as Hnew.
  destruct (handle_events st true events) as [st1 running]. cbn [fst snd] in *.
  destruct (spawning_members st1) as [Hm [Hsp [Hms Hmk]]].
  assert (Hr2 : in_range (spawning st1))
    by (unfold in_range; rewrite Hm, Hsp; exact Hr1).
  assert (Hpos : 0 < mass (spawning st1)) by (destruct Hr2 as [[H _] _]; lra).
  rewrite (updates_returns _ Hpos). cbn [bind].
  eexists. exists running. split; [reflexivity |].
  split; [exact Hr2 |]. split; [| reflexivity].
  assert (Hin : (forall p, In p (particles_schwarz (spawning st1)) ->
                           is_kerr p = false) /\
                (forall p, In p (particles_kerr (spawning st1)) ->
                           is_kerr p = true)).
  { rewrite Forall_forall in Hfs, Hfk. split; intros p Hp.
    - destruct (Hms p Hp) as [H | H]; [apply Hfs, (Hnew p), H |].
      apply spawned_fresh in H. tauto.
    - destruct (Hmk p Hp) as [H | H]; [apply Hfk, (Hnew p), H |].
      apply spawned_fresh in H. tauto. }
  destruct Hin as [Hs Hk].
  unfold tidy, not_dead. cbn [particles_schwarz particles_kerr spin].
  split; apply Forall_forall; intros q Hq;
    apply filter_In in Hq; destruct Hq as [Hq Hd];
    apply in_map_iff in Hq; destruct Hq as [p [<- Hp]].
  - split; [destruct (dead _); [discriminate Hd | reflexivity] |].
    destruct (update_fields p (mass (spawning st1)) 0 0) as [-> _].
    apply Hs, Hp.
  - split; [destruct (dead _); [discriminate Hd | reflexivity] |].
    destruct (update_fields (set_hole_spin p (spin (spawning st1)))
                (mass (spawning st1)) 0 0) as [-> [-> _]].
    cbn [is_kerr hole_spin set_hole_spin]. split; [apply Hk, Hp | reflexivity].
Qed.

Lemma main_loop_tidy (frames : list (list event)) :
  forall st : SimulationState,
    in_range st -> tidy st ->
    exists st', main_loop st frames = Ok st' /\ in_range st' /\ tidy st'.
Proof.
  induction frames as [| events frames IH]; intros st Hr Ht.
  - exists st. split; [reflexivity | split; assumption].
  - cbn [main_loop].
    destruct (frame_tidy st events Hr (tidy_flags st Ht))
      as [st1 [running [Hf [Hr1 [Ht1 _]]]]].
    rewrite Hf. cbn [bind]. destruct running.
    + apply IH; assumption.
    + exists st1. split; [reflexivity | split; assumption].
Qed.

(** X2.  From the initial state the frame loop never raises, whatever
    the events of each frame, and it ends with the mass within [10, 100]
    and the spin within [-1, 1]. *)
Theorem main_never_raises (frames : list (list event)) :
  exists st',
    main_loop SimulationState_init frames = Ok st' /\
    10 <= mass st' <= 100 /\ -1 <= spin st' <= 1.
Proof.
  destruct (main_loop_tidy frames SimulationState_init) as [st' [Hl [Hr _]]].
  - unfold in_range. cbn. lra.
  - split; constructor.
  - exists st'. split; [exact Hl | exact Hr].
Qed.

(** X3.  From the initial state, after any frames, no photon in either
    collection is marked dead, the Schwarzschild collection holds only
    photons without the Kerr flag, and every photon of the Kerr collection
    has the flag and carries the current spin. *)
Theorem collections_stay_tidy (frames : list (list event)) :
  exists st',
    main_loop SimulationState_init frames = Ok st' /\
    Forall (fun p => dead p = false /\ is_kerr p = false) (particles_schwarz st') /\
    Forall (fun p => dead p = false /\ is_kerr p = true /\ hole_spin p = spin st')
           (particles_kerr st').
Proof.
  destruct (main_loop_tidy frames SimulationState_init) as [st' [Hl [_ Ht]]].
  - unfold in_range. cbn. lra.
  - split; constructor.
  - exists st'. split; [exact Hl | exact Ht].
Qed.

(** ** Reset and quit *)

Lemma handle_events_empty (events : list event) :
  forall (st : SimulationState) (running : bool),
    particles_schwarz st = [] -> particles_kerr st = [] ->
    particles_schwarz (fst (handle_events st running events)) = [] /\
    particles_kerr (fst (handle_events st running events)) = [].
Proof.
  induction events as [| e events IH]; intros st running Hs Hk; [split; assumption |].
  destruct e as [| k |]; cbn [handle_events]; try (apply IH; assumption).
  apply IH; destruct k; cbn; assumption || reflexivity.
Qed.

Lemma handle_events_app (e1 e2 : list event) :
  forall (st : SimulationState) (running : bool),
    handle_events st running (e1 ++ e2) =
    handle_events (fst (handle_events st running e1))
                  (snd (handle_events st running e1)) e2.
Proof.
  induction e1 as [| e e1 IH]; intros st running; [reflexivity |].
  destruct e as [| k |]; cbn [handle_events app]; apply IH.
Qed.

(** X5.  A reset key anywhere among the events of a frame leaves both
    collections empty when the events have been handled, and has no effect
    on the mass and spin the other keys produce. *)
Theorem reset_clears (before after : list event) (st : SimulationState)
  (running : bool) :
  let st' := fst (handle_events st running (before ++ KEYDOWN K_r :: after)) in
  particles_schwarz st' = [] /\ particles_kerr st' = [] /\
  mass st' = mass (fst (handle_events st running (before ++ after))) /\
  spin st' = spin (fst (handle_events st running (before ++ after))).
Proof.
  cbv zeta. rewrite !handle_events_app. cbn [handle_events].
  set (st1 := fst (handle_events st running before)).
  set (r1 := snd (handle_events st running before)).
  destruct (handle_events_empty after (handle_key st1 K_r) r1 eq_refl eq_refl)
    as [Hs Hk].
  split; [exact Hs |]. split; [exact Hk |].
  assert (Hgen : forall evs a b r,
             mass a = mass b -> spin a = spin b ->
             mass (fst (handle_events a r evs)) = mass (fst (handle_events b r evs)) /\
             spin (fst (handle_events a r evs)) = spin (fst (handle_events b r evs))).
  { induction evs as [| e evs IH]; intros a b r Hm Hsp; [split; assumption |].
    destruct e as [| k |]; cbn [handle_events]; try (apply IH; assumption).
    apply IH; destruct k; cbn; rewrite ?Hm, ?Hsp; reflexivity. }
  apply Hgen; reflexivity.
Qed.

Lemma handle_events_quit (events : list event) :
  forall (st : SimulationState) (running : bool),
    In QUIT events -> snd (handle_events st running events) = false.
Proof.
  assert (Hfalse : forall evs st, snd (handle_events st false evs) = false).
  { induction evs as [| e evs IH]; intros st; [reflexivity |].
    destruct e; cbn [handle_events]; apply IH. }
  induction events as [| e events IH]; intros st running H; [contradiction |].
  destruct H as [-> | H].
  - cbn [handle_events]. apply Hfalse.
  - destruct e; cbn [handle_events]; try (apply IH; exact H); apply Hfalse.
Qed.

Lemma handle_events_frame_count (events : list event) :
  forall (st : SimulationState) (running : bool),
    frame_count (fst (handle_events st running events)) = frame_count st.
Proof.
  induction events as [| e events IH]; intros st running; [reflexivity |].
  destruct e as [| k |]; cbn [handle_events]; try apply IH.
  rewrite IH. destruct k; reflexivity.
Qed.

Lemma spawning_counts (st : SimulationState) :
  frame_count (spawning st) = S (frame_count st) /\ mass (spawning st) = mass st.
Proof.
  unfold spawning. cbn [frame_count].
  destruct (S (frame_count st) mod SPAWN_RATE =? 0)%nat.
  - match goal with |- context [spawn_columns ?o ?s] =>
      destruct (spawn_columns_appends o s) as [_ [_ [Hm [_ Hf]]]] end.
    cbv zeta in Hm, Hf. rewrite Hm, Hf. split; reflexivity.
  - split; reflexivity.
Qed.

(** The last iteration: when [QUIT] is among the events, the loop returns
    what event handling, spawning and the updates of that iteration
    leave. *)
Lemma main_loop_quit (st : SimulationState) (events : list event)
  (later : list (list event)) :
  In QUIT events ->
  main_loop st (events :: later) =
    updates (spawning (fst (handle_events st true events))).
Proof.
  intros Hq. cbn [main_loop]. unfold frame.
  pose proof (handle_events_quit events st true Hq) as Hr.
  destruct (handle_events st true events) as [st1 running]. cbn [fst snd] in *.
  subst running. destruct (updates _); reflexivity.
Qed.

(** X6.  The iteration that sees [QUIT] is still run to its end: the loop
    returns what handling all its events, spawning and the updates of both
    collections leave, the frame counted (with a positive mass it returns,
    the counter one higher); and no later iteration is run at all. *)
Theorem quit_ends_after_the_frame (st : SimulationState)
  (earlier : list (list event)) (events : list event)
  (later : list (list event)) :
  In QUIT events ->
  main_loop st (events :: later) =
    updates (spawning (fst (handle_events st true events))) /\
  (0 < mass st ->
   exists st', main_loop st (events :: later) = Ok st' /\
               frame_count st' = S (frame_count st)) /\
  main_loop st (earlier ++ events :: later) = main_loop st (earlier ++ [events]).
Proof.
  intros Hq. split; [apply main_loop_quit, Hq |]. split.
  - intros Hm. rewrite (main_loop_quit st events later Hq).
    set (st1 := fst (handle_events st true events)).
    destruct (spawning_counts st1) as [Hf Hms].
    assert (Hm1 : 0 < mass (spawning st1))
      by (rewrite Hms; apply handle_events_mass, Hm).
    rewrite (updates_returns _ Hm1). eexists. split; [reflexivity |].
    cbn [frame_count]. rewrite Hf. unfold st1.
    rewrite handle_events_frame_count. reflexivity.
  - revert st. induction earlier as [| e earlier IH]; intros st.
    + cbn [app]. rewrite !(main_loop_quit st events _ Hq). reflexivity.
    + cbn [app main_loop]. destruct (frame st e) as [[st1 running] |]; cbn [bind];
        [| reflexivity].
      destruct running; [apply IH | reflexivity].
Qed.

(** ** Angular momentum *)

(** Without the spin terms the engine returns a multiple of the unit
    radial vector [(dx / r, dy / r)]. *)
Lemma physics_engine_radial (self : Photon) (mass dx dy r2 r ax ay : R) :
  is_kerr self && neq (hole_spin self) 0 = false ->
  physics_engine self mass dx dy r2 r = Ok (ax, ay) ->
  exists f, ax = f * (dx / r) /\ ay = f * (dy / r).
Proof.
  intros Hk. unfold physics_engine, div.
  destruct (Req_dec_T r 0); [discriminate |]. cbn [bind].
  destruct (Req_dec_T r2 0); [discriminate |]. cbn [bind].
  destruct (Req_dec_T (r ^ 4) 0); [discriminate |]. cbn [bind].
  rewrite Hk. intros H. injection H as <- <-. eexists. split; reflexivity.
Qed.

Lemma integrate_angular_momentum (self : Photon) (f r : R) :
  angular_momentum (final (integrate self (f * (x_raw self / r))
                                          (f * (y_raw self / r)))) =
  angular_momentum self.
Proof.
  destruct (integrate_motion self (f * (x_raw self / r)) (f * (y_raw self / r)))
    as [self' [Hi [Hv [Hx [Hy _]]]]].
  rewrite Hi. cbn [final]. unfold angular_momentum.
  rewrite Hx, Hy, Hv. cbn [fst snd]. unfold Rdiv. ring.
Qed.

Lemma update_angular_momentum (self : Photon) (mass cx cy : R) :
  is_kerr self && neq (hole_spin self) 0 = false ->
  angular_momentum (final (update self mass cx cy)) = angular_momentum self.
Proof.
  intros Hk. unfold update.
  destruct (active self); cbn [negb]; [| reflexivity].
  destruct (Py.sqrt _) as [r |]; [| reflexivity].
  destruct (Rlt_dec _ _); [reflexivity |].
  destruct (physics_engine _ _ _ _ _ _) as [[ax ay] |] eqn:E; [| reflexivity].
  apply physics_engine_radial in E; [| exact Hk].
  destruct E as [f [-> ->]].
  exact (integrate_angular_momentum (record_history self cx cy) f r).
Qed.

(** X7.  A photon without the Kerr flag keeps its angular momentum
    [x * vy - y * vx] exactly through any run of calls, whatever the
    masses and whether the run returns or raises. *)
Theorem angular_momentum_conserved (self : Photon) (cs : list call) :
  is_kerr self = false ->
  angular_momentum (final (calls self cs)) = angular_momentum self.
Proof.
  revert self. induction cs as [| c cs IH]; intros self Hk; [reflexivity |].
  cbn [calls]. unfold apply_call.
  assert (Hp : is_kerr (prepare self c) = false)
    by (unfold prepare; destruct (assign_spin c); exact Hk).
  assert (Hl : angular_momentum (prepare self c) = angular_momentum self)
    by (unfold prepare; destruct (assign_spin c); reflexivity).
  pose proof (update_angular_momentum (prepare self c) (call_mass c)
                (call_center_x c) (call_center_y c)) as Hu.
  rewrite Hp in Hu. specialize (Hu eq_refl).
  destruct (update_fields (prepare self c) (call_mass c) (call_center_x c)
              (call_center_y c)) as [Hk' _].
  destruct (update _ _ _ _) as [self' | e self']; cbn [final] in *.
  - rewrite IH by congruence. congruence.
  - congruence.
Qed.

Lemma angular_momentum_conserved_witness :
  is_kerr Examples.inside = false /\
  angular_momentum (final (calls Examples.inside [Examples.free_call])) =
  angular_momentum Examples.inside.
Proof.
  assert (H : is_kerr Examples.inside = false) by reflexivity.
  split; [exact H |].
  exact (angular_momentum_conserved Examples.inside [Examples.free_call] H).
Defined.

(** ** Photons on the axis *)

Lemma radius_on_axis (self : Photon) :
  y_raw self = 0 -> radius self = Rabs (x_raw self).
Proof.
  intros Hy. unfold radius. rewrite Hy.
  replace (x_raw self * x_raw self + 0 * 0) with (Rsqr (x_raw self))
    by (unfold Rsqr; ring).
  apply sqrt_Rsqr_abs.
Qed.

(** One step of a Schwarzschild photon coming in along the negative
    axis, outside the horizon: it stays on the axis and is pulled towards
    the hole by [mass / x^2]. *)
Lemma axis_step (self : Photon) (mass cx cy : R) :
  active self = true -> is_kerr self = false ->
  y_raw self = 0 -> snd (vel self) = 0 -> x_raw self < 0 ->
  ~ radius self < 2 * mass ->
  exists self',
    update self mass cx cy = Returned self' /\
    active self' = true /\ is_kerr self' = false /\
    y_raw self' = 0 /\ snd (vel self') = 0 /\
    fst (vel self') = fst (vel self) + mass / (x_raw self) ^ 2 * DT /\
    x_raw self' = x_raw self + fst (vel self') * DT /\
    (dead self' = true <-> dead self = true \/ Rabs (x_raw self') > WIDTH).
Proof.
  intros Ha Hk Hy Hvy Hx Hout.
  assert (Hr : radius self = - x_raw self)
    by (rewrite radius_on_axis by exact Hy; apply Rabs_left; exact Hx).
  rewrite update_active_outside by (try assumption; rewrite Hr; lra).
  assert (Hacc : SpacetimeModel.acceleration (x_raw self, y_raw self) (vel self)
                   mass (SpacetimeModel.spin_of self)
                 = (mass / (x_raw self) ^ 2, 0)).
  { unfold SpacetimeModel.acceleration, SpacetimeModel.spin_of.
    rewrite Hk. destruct (vel self) as [vx vy]. cbn [snd] in Hvy. subst vy.
    fold (radius self). rewrite Hr, Hy, G_one. cbn [fst snd].
    f_equal; field; lra. }
  rewrite Hacc. cbn [fst snd].
  destruct (integrate_motion (record_history self cx cy) (mass / x_raw self ^ 2) 0)
    as [self' [Hi [Hv [Hx' [Hy' [_ [Hact [Hk' [_ Hd]]]]]]]]].
  cbn [vel x_raw y_raw active is_kerr dead record_history set_history]
    in Hv, Hx', Hy', Hact, Hk', Hd.
  exists self'. split; [exact Hi |].
  assert (Hvy' : snd (vel self') = 0) by (rewrite Hv; cbn [snd]; lra).
  assert (Hy0 : y_raw self' = 0) by (rewrite Hy', Hvy', Hy; lra).
  split; [congruence |]. split; [congruence |].
  split; [exact Hy0 |]. split; [exact Hvy' |].
  split; [rewrite Hv; reflexivity |]. split; [exact Hx' |].
  rewrite Hd, radius_pow2, radius_on_axis by exact Hy0. reflexivity.
Qed.

Lemma axis_capture (n : nat) :
  forall (self : Photon) (cs : list call),
    active self = true -> is_kerr self = false -> dead self = false ->
    y_raw self = 0 -> snd (vel self) = 0 ->
    - 800 <= x_raw self < 0 -> - 20 - 2 * INR n < x_raw self ->
    4 <= fst (vel self) -> fst (vel self) + INR n / 80 <= 8 ->
    (n < length cs)%nat ->
    Forall (fun c => 10 <= call_mass c <= 100) cs ->
    exists self',
      calls self cs = Returned self' /\
      active self' = false /\ dead self' = false /\ y_raw self' = 0.
Proof.
  induction n as [| n IH];
    intros self cs Ha Hk Hd Hy Hvy [Hx1 Hx2] Hn Hv1 Hv2 Hlen Hcs;
    (destruct cs as [| c rest]; [cbn in Hlen; lia |]);
    inversion Hcs as [| c' rest' [Hm1 Hm2] Hrest]; subst;
    cbn [calls]; unfold apply_call;
    set (q := prepare self c);
    assert (Hq : active q = true /\ is_kerr q = false /\ dead q = false /\
                 y_raw q = 0 /\ vel q = vel self /\ x_raw q = x_raw self)
      by (unfold q, prepare; destruct (assign_spin c); repeat split; assumption);
    destruct Hq as [Hqa [Hqk [Hqd [Hqy [Hqv Hqx]]]]];
    assert (Hqr : radius q = - x_raw self)
      by (rewrite radius_on_axis by exact Hqy; rewrite Hqx; apply Rabs_left; lra);
    destruct (Rlt_dec (radius q) (2 * call_mass c)) as [Hc | Hc].
  - rewrite (update_capture q _ _ _ Hqa Hc).
    destruct (calls_inactive (set_active (record_history q (call_center_x c)
                                            (call_center_y c)) false) rest eq_refl)
      as [self' [Hr Hm]].
    exists self'. split; [exact Hr |].
    unfold motion_state in Hm. injection Hm as _ Hy' _ _ Ha' Hd'.
    cbn in Hy', Ha', Hd'. repeat split; congruence.
  - exfalso. rewrite Hqr in Hc. cbn [INR] in Hn. lra.
  - rewrite (update_capture q _ _ _ Hqa Hc).
    destruct (calls_inactive (set_active (record_history q (call_center_x c)
                                            (call_center_y c)) false) rest eq_refl)
      as [self' [Hr Hm]].
    exists self'. split; [exact Hr |].
    unfold motion_state in Hm. injection Hm as _ Hy' _ _ Ha' Hd'.
    cbn in Hy', Ha', Hd'. repeat split; congruence.
  - assert (Hvq : snd (vel q) = 0) by (rewrite Hqv; exact Hvy).
    assert (Hxq : x_raw q < 0) by (rewrite Hqx; exact Hx2).
    destruct (axis_step q (call_mass c) (call_center_x c) (call_center_y c)
                Hqa Hqk Hqy Hvq Hxq Hc)
      as [p1 [Hu [Ha1 [Hk1 [Hy1 [Hvy1 [Hvx1 [Hx1' Hd1]]]]]]]].
    rewrite Hu. rewrite Hqr in Hc. rewrite Hqv, Hqx in Hvx1. rewrite Hqx in Hx1'.
    rewrite S_INR in Hn, Hv2.
    set (m := call_mass c) in *. set (x := x_raw self) in *.
    set (a := m / x ^ 2) in *. clearbody q.
    assert (Hx20 : x <= - 20) by lra.
    assert (Hsq : 40 * m <= x ^ 2) by nra.
    assert (Hpos : 0 < x ^ 2) by nra.
    assert (Hacc : 0 < a <= 1 / 40).
    { split.
      - apply Rdiv_lt_0_compat; lra.
      - apply Rmult_le_reg_r with (x ^ 2); [exact Hpos |].
        replace (a * x ^ 2) with m by (unfold a; field; lra). lra. }
    clearbody a.
    unfold DT in Hvx1, Hx1'.
    assert (Hvb : fst (vel self) <= fst (vel p1) <= fst (vel self) + 1 / 80) by lra.
    pose proof (pos_INR n) as Hn0.
    assert (Hxb : x + 2 <= x_raw p1 <= x + 4) by lra.
    apply IH; try assumption; try lra; try (cbn in Hlen; lia).
    destruct (dead p1) eqn:E; [| reflexivity].
    destruct (proj1 Hd1 eq_refl) as [H | H]; [congruence |].
    unfold WIDTH in H. rewrite Rabs_left in H by lra. lra.
Qed.

(** X8.  The photon spawned on the axis (offset 0) in the Schwarzschild
    collection is captured: after any 192 or more calls with masses within
    [10, 100] it is inactive, still on the axis, and was never marked
    dead. *)
Theorem axis_photon_is_captured (cs : list call) :
  (192 <= length cs)%nat ->
  Forall (fun c => 10 <= call_mass c <= 100) cs ->
  exists self',
    calls (Photon_init 0 WIDTH false 0) cs = Returned self' /\
    active self' = false /\ dead self' = false /\ y_raw self' = 0.
Proof.
  intros Hlen Hcs.
  apply (axis_capture 191); try reflexivity; try assumption; try lia;
    cbn [Photon_init x_raw vel fst snd]; unfold WIDTH;
    try (replace (INR 191) with 191 by (cbn; lra)); try lra.
Qed.

Lemma update_keeps_axis (self : Photon) (mass cx cy : R) :
  is_kerr self && neq (hole_spin self) 0 = false ->
  y_raw self = 0 -> snd (vel self) = 0 ->
  y_raw (final (update self mass cx cy)) = 0 /\
  snd (vel (final (update self mass cx cy))) = 0.
Proof.
  intros Hk Hy Hvy. unfold update.
  destruct (active self); cbn [negb]; [| split; assumption].
  destruct (Py.sqrt _) as [r |]; [| split; assumption].
  destruct (Rlt_dec _ _); [split; assumption |].
  destruct (physics_engine _ _ _ _ _ _) as [[ax ay] |] eqn:E; [| split; assumption].
  apply physics_engine_radial in E; [| exact Hk].
  destruct E as [f [-> ->]].
  destruct (integrate_motion (record_history self cx cy)
              (f * (x_raw (record_history self cx cy) / r))
              (f * (y_raw (record_history self cx cy) / r)))
    as [self' [Hi [Hv [_ [Hy' _]]]]].
  rewrite Hi. cbn [final].
  cbn [vel x_raw y_raw record_history set_history] in Hv, Hy'.
  assert (Hvy' : snd (vel self') = 0).
  { rewrite Hv. cbn [snd]. rewrite Hvy, Hy. unfold Rdiv. ring. }
  split; [rewrite Hy', Hvy', Hy; ring | exact Hvy'].
Qed.

(** X9.  A photon without the Kerr flag that is on the horizontal axis
    and moves along it stays on it through any run of calls. *)
Theorem schwarzschild_axis_is_invariant (self : Photon) (cs : list call) :
  is_kerr self = false -> y_raw self = 0 -> snd (vel self) = 0 ->
  y_raw (final (calls self cs)) = 0 /\ snd (vel (final (calls self cs))) = 0.
Proof.
  revert self. induction cs as [| c cs IH]; intros self Hk Hy Hvy;
    [split; assumption |].
  cbn [calls]. unfold apply_call.
  assert (Hp : is_kerr (prepare self c) = false /\ y_raw (prepare self c) = 0 /\
               snd (vel (prepare self c)) = 0)
    by (unfold prepare; destruct (assign_spin c); repeat split; assumption).
  destruct Hp as [Hpk [Hpy Hpv]].
  assert (Hpk' : is_kerr (prepare self c) && neq (hole_spin (prepare self c)) 0
                 = false) by (rewrite Hpk; reflexivity).
  destruct (update_keeps_axis (prepare self c) (call_mass c) (call_center_x c)
              (call_center_y c) Hpk' Hpy Hpv) as [Hy' Hv'].
  destruct (update_fields (prepare self c) (call_mass c) (call_center_x c)
              (call_center_y c)) as [Hk' _].
  destruct (update _ _ _ _) as [self' | e self']; cbn [final] in *.
  - apply IH; congruence.
  - split; assumption.
Qed.

Lemma schwarzschild_axis_is_invariant_witness :
  is_kerr Examples.drifting = false /\ y_raw Examples.drifting = 0 /\
  snd (vel Examples.drifting) = 0 /\
  y_raw (final (calls Examples.drifting [Examples.free_call])) = 0 /\
  snd (vel (final (calls Examples.drifting [Examples.free_call]))) = 0.
Proof.
  assert (H1 : is_kerr Examples.drifting = false) by reflexivity.
  assert (H2 : y_raw Examples.drifting = 0) by reflexivity.
  assert (H3 : snd (vel Examples.drifting) = 0) by (cbn; lra).
  repeat (split; [assumption |]).
  exact (schwarzschild_axis_is_invariant Examples.drifting [Examples.free_call]
           H1 H2 H3).
Defined.

(** X10.  An active Kerr photon on the axis, moving along it outside the
    horizon of a hole with non-zero spin, is pushed off the axis by the
    frame-dragging term alone: its new vertical velocity is
    [(x / |x|) * (2 * spin * mass / |x|^3) * 0.5 * DT], it has the sign of
    [x * spin], and the photon leaves the axis by that velocity times
    [DT]. *)
Theorem kerr_drags_off_the_axis (self : Photon) (mass cx cy : R) :
  active self = true -> is_kerr self = true -> hole_spin self <> 0 ->
  y_raw self = 0 -> snd (vel self) = 0 ->
  0 < mass -> 2 * mass <= Rabs (x_raw self) ->
  exists self',
    update self mass cx cy = Returned self' /\
    snd (vel self') =
      x_raw self / Rabs (x_raw self)
      * (2 * hole_spin self * mass / Rabs (x_raw self) ^ 3) * 0.5 * DT /\
    y_raw self' = snd (vel self') * DT /\
    0 < x_raw self * hole_spin self * snd (vel self').
Proof.
  intros Ha Hk Hs Hy Hvy Hm Hout.
  assert (Hr : radius self = Rabs (x_raw self)) by (apply radius_on_axis, Hy).
  assert (Hx0 : x_raw self <> 0) by (intros H0; rewrite H0, Rabs_R0 in Hout; lra).
  assert (Hrpos : 0 < Rabs (x_raw self)) by (apply Rabs_pos_lt, Hx0).
  rewrite update_active_outside by (try assumption; rewrite Hr; lra).
  assert (Hacc : snd (SpacetimeModel.acceleration (x_raw self, y_raw self)
                        (vel self) mass (SpacetimeModel.spin_of self))
                 = x_raw self / Rabs (x_raw self)
                   * (2 * hole_spin self * mass / Rabs (x_raw self) ^ 3) * 0.5).
  { unfold SpacetimeModel.acceleration, SpacetimeModel.spin_of.
    rewrite Hk. destruct (vel self) as [vx vy]. cbn [snd] in Hvy. subst vy.
    destruct (Req_dec_T (hole_spin self) 0); [contradiction |].
    fold (radius self). rewrite Hr, Hy. cbn [fst snd]. field. lra. }
  match goal with
  | |- context [integrate ?s ?ax ?ay] =>
    destruct (integrate_motion s ax ay) as [self' [Hi [Hv [_ [Hy' _]]]]]
  end.
  rewrite Hacc in Hv. cbn [vel y_raw record_history set_history] in Hv, Hy'.
  exists self'. split; [exact Hi |].
  assert (Hvy' : snd (vel self') =
                 x_raw self / Rabs (x_raw self)
                 * (2 * hole_spin self * mass / Rabs (x_raw self) ^ 3) * 0.5 * DT)
    by (rewrite Hv; cbn [snd]; rewrite Hvy; ring).
  split; [exact Hvy' |]. split; [rewrite Hy', Hy; ring |].
  rewrite Hvy'. unfold DT.
  set (r := Rabs (x_raw self)) in *. set (x := x_raw self) in *.
  set (s := hole_spin self) in *. clearbody r x s.
  replace 0.5 with (1 / 2) by lra.
  replace (x * s * (x / r * (2 * s * mass / r ^ 3) * (1 / 2) * (1 / 2)))
    with ((x * x) * (s * s) * mass * (/ r ^ 4) * (1 / 2))
    by (field; lra).
  assert (0 < x * x)
    by (destruct (Rtotal_order x 0) as [? | [? | ?]]; [nra | contradiction | nra]).
  assert (0 < s * s)
    by (destruct (Rtotal_order s 0) as [? | [? | ?]]; [nra | contradiction | nra]).
  assert (0 < / r ^ 4) by (apply Rinv_0_lt_compat, pow_lt; exact Hrpos).
  apply Rmult_lt_0_compat; [| lra].
  apply Rmult_lt_0_compat; [| assumption].
  apply Rmult_lt_0_compat; [| exact Hm].
  apply Rmult_lt_0_compat; assumption.
Qed.

(** * Further properties of black_hole_raytracing.py *)

Section Vectors.

Import RayTracing Shader.

Lemma dot_nonneg (a : vec3) : 0 <= dot a a.
Proof. unfold dot. nra. Qed.

Lemma length_dot (a : vec3) : length a = R_sqrt.sqrt (dot a a).
Proof. reflexivity. Qed.

Lemma length_squared (a : vec3) : length a * length a = dot a a.
Proof. rewrite length_dot. apply sqrt_sqrt, dot_nonneg. Qed.

Lemma length_nonneg (a : vec3) : 0 <= length a.
Proof. apply sqrt_pos. Qed.

Lemma length_unit (a : vec3) : dot a a = 1 -> length a = 1.
Proof. intros H. rewrite length_dot, H. apply sqrt_1. Qed.

Lemma length_nonzero (a : vec3) : 0 < dot a a -> length a <> 0.
Proof.
  intros H. rewrite length_dot. apply Rgt_not_eq, sqrt_lt_R0, H.
Qed.

(** [normalize] of a vector that is not zero: the vector over its
    length, of length one. *)
Lemma normalize_unit (a : vec3) :
  0 < dot a a ->
  exists n,
    normalize a = Ok n /\ dot n n = 1 /\
    (forall b, dot n b = dot a b / length a) /\
    n = smul (/ length a) a.
Proof.
  intros H. pose proof (length_nonzero a H) as Hl.
  unfold normalize. rewrite !div_ok by exact Hl. cbn [bind].
  eexists. split; [reflexivity |].
  pose proof (length_squared a) as Hsq.
  split; [| split].
  - unfold dot at 1. cbn [X Y Zc]. unfold dot in Hsq.
    replace (X a / length a * (X a / length a) + Y a / length a * (Y a / length a)
             + Zc a / length a * (Zc a / length a))
      with ((X a * X a + Y a * Y a + Zc a * Zc a) / (length a * length a))
      by (field; exact Hl).
    rewrite Hsq. field. rewrite <- Hsq. nra.
  - intros b. unfold dot. cbn [X Y Zc]. field. exact Hl.
  - unfold smul. f_equal; unfold Rdiv; ring.
Qed.

Lemma lagrange (a b : vec3) :
  dot (cross a b) (cross a b) = dot a a * dot b b - dot a b * dot a b.
Proof. unfold dot, cross. cbn [X Y Zc]. ring. Qed.

Lemma cross_orthogonal (a b : vec3) :
  dot (cross a b) a = 0 /\ dot (cross a b) b = 0.
Proof. unfold dot, cross. cbn [X Y Zc]. split; ring. Qed.

Lemma dot_comm (a b : vec3) : dot a b = dot b a.
Proof. unfold dot. ring. Qed.

Lemma cauchy_schwarz (a b : vec3) : dot a b * dot a b <= dot a a * dot b b.
Proof.
  pose proof (lagrange a b) as H. pose proof (dot_nonneg (cross a b)). lra.
Qed.

End Vectors.

Section Marching.

Import RayTracing Shader.

(** ** The physics loop *)

Lemma unit_dot (a : vec3) : length a = 1 -> dot a a = 1.
Proof. intros H. rewrite <- length_squared, H. ring. Qed.

Lemma bent_dot (d n : vec3) (k h : R) :
  dot (vadd d (vscale (vscale (vneg n) k) h))
      (vadd d (vscale (vscale (vneg n) k) h)) =
  dot d d - 2 * (k * h) * dot d n + (k * h) * (k * h) * dot n n.
Proof. unfold dot, vadd, vscale, vneg. cbn [X Y Zc]. ring. Qed.

Lemma length_vscale (a : vec3) (h : R) :
  0 <= h -> length (vscale a h) = h * length a.
Proof.
  intros Hh. rewrite !length_dot.
  replace (dot (vscale a h) (vscale a h)) with (h * h * dot a a)
    by (unfold dot, vscale; cbn [X Y Zc]; ring).
  rewrite sqrt_mult by (try apply dot_nonneg; nra).
  rewrite sqrt_square by exact Hh. reflexivity.
Qed.

(** The step of a ray whose direction has length one, outside the
    capture radius. *)
Lemma march_step_outside (s : ray) :
  length (dir s) = 1 -> ~ length (pos s) < BH_RADIUS ->
  exists d,
    march_step s =
      Ok (mkRay (vadd (pos s) (vscale d (Rmax 0.05 (length (pos s) * 0.1))))
                d (escaped s),
          if Rgt_dec (length (pos s)) 1000.0 then Break else Continue) /\
    length d = 1.
Proof.
  intros Hd Hr. unfold BH_RADIUS in Hr.
  set (r := length (pos s)) in *.
  assert (Hr1 : 1 <= r) by lra.
  assert (Hpos : 0 < dot (pos s) (pos s))
    by (rewrite <- length_squared; fold r; nra).
  destruct (normalize_unit (pos s) Hpos) as [n [Hn [Hnn _]]].
  unfold march_step. fold r.
  destruct (Rlt_dec r BH_RADIUS) as [H | _]; [unfold BH_RADIUS in H; lra |].
  unfold gravity. rewrite Hn. cbn [bind].
  rewrite div_ok by nra. cbn [bind].
  set (k := 3.0 / (r * r)). set (h := Rmax 0.05 (r * 0.1)).
  assert (Hh : h = r * 0.1) by (unfold h; apply Rmax_right; lra).
  assert (Hc : 0 < k * h <= 3 / 10).
  { rewrite Hh. unfold k.
    replace 3.0 with 3 by lra. replace 0.1 with (1 / 10) by lra.
    replace (3 / (r * r) * (r * (1 / 10))) with (3 / 10 / r) by (field; lra).
    split.
    - apply Rdiv_lt_0_compat; lra.
    - apply Rmult_le_reg_r with r; [lra |].
      replace (3 / 10 / r * r) with (3 / 10) by (field; lra). nra. }
  pose proof (unit_dot (dir s) Hd) as Hdd.
  pose proof (cauchy_schwarz (dir s) n) as Hcs. rewrite Hdd, Hnn in Hcs.
  assert (Hdn : dot (dir s) n <= 1) by nra.
  assert (Hbent : 0 < dot (vadd (dir s) (vscale (vscale (vneg n) k) h))
                          (vadd (dir s) (vscale (vscale (vneg n) k) h))).
  { rewrite bent_dot, Hdd, Hnn. set (c := k * h) in *. clearbody c. nra. }
  destruct (normalize_unit _ Hbent) as [d [Hnd [Hdd' _]]].
  rewrite Hnd. cbn [bind]. exists d. split; [reflexivity |].
  apply length_unit, Hdd'.
Qed.

(** X11.  For a ray whose direction has length one, a step of the loop
    never divides by zero and returns a direction of length one.  Inside
    the capture radius it leaves position and direction as they are,
    clears [escaped] and breaks; outside it keeps [escaped], moves the
    position by exactly [h = max(0.05, 0.1 * r)], and breaks exactly when
    [r > 1000]. *)
Theorem march_step_keeps_unit_direction (s : ray) :
  length (dir s) = 1 ->
  exists s' f,
    march_step s = Ok (s', f) /\
    length (dir s') = 1 /\
    (length (pos s) < BH_RADIUS ->
     s' = mkRay (pos s) (dir s) false /\ f = Break) /\
    (~ length (pos s) < BH_RADIUS ->
     escaped s' = escaped s /\
     length (vsub (pos s') (pos s)) = Rmax 0.05 (length (pos s) * 0.1) /\
     (f = Break <-> length (pos s) > 1000.0)).
Proof.
  intros Hd.
  destruct (Rlt_dec (length (pos s)) BH_RADIUS) as [Hr | Hr].
  - exists (mkRay (pos s) (dir s) false), Break.
    unfold march_step. destruct (Rlt_dec _ _); [| contradiction].
    split; [reflexivity |]. split; [exact Hd |].
    split; [intros _; split; reflexivity | intros H; contradiction].
  - destruct (march_step_outside s Hd Hr) as [d [Hs Hl]].
    eexists. eexists. split; [exact Hs |]. cbn [dir pos escaped].
    split; [exact Hl |]. split; [intros H; contradiction |].
    intros _. split; [reflexivity |]. split.
    + set (h := Rmax 0.05 (length (pos s) * 0.1)).
      assert (Hh : 0 <= h) by (unfold h; pose proof (Rmax_l 0.05 (length (pos s) * 0.1)); lra).
      replace (vsub (vadd (pos s) (vscale d h)) (pos s)) with (vscale d h).
      * rewrite length_vscale by exact Hh. rewrite Hl. ring.
      * unfold vsub, vadd, vscale. cbn [X Y Zc]. f_equal; ring.
    + destruct (Rgt_dec _ _) as [H | H]; split; intros H'; try assumption;
        try reflexivity; try discriminate; contradiction.
Qed.

Lemma march_total (n : nat) :
  forall s : ray,
    length (dir s) = 1 ->
    exists s',
      march n s = Ok s' /\ length (dir s') = 1 /\
      (escaped s' = false ->
       escaped s = false \/ length (pos s') < BH_RADIUS).
Proof.
  induction n as [| n IH]; intros s Hd.
  - exists s. split; [reflexivity |]. split; [exact Hd |]. intros H. left. exact H.
  - cbn [march].
    destruct (Rlt_dec (length (pos s)) BH_RADIUS) as [Hr | Hr].
    + unfold march_step. destruct (Rlt_dec _ _); [| contradiction].
      cbn [bind]. eexists. split; [reflexivity |].
      cbn [dir pos escaped]. split; [exact Hd |]. intros _. right. exact Hr.
    + destruct (march_step_outside s Hd Hr) as [d [Hs Hl]].
      rewrite Hs. cbn [bind].
      set (s1 := mkRay (vadd (pos s) (vscale d (Rmax 0.05 (length (pos s) * 0.1))))
                       d (escaped s)).
      destruct (Rgt_dec (length (pos s)) 1000.0).
      * exists s1. split; [reflexivity |]. split; [exact Hl |].
        intros H. left. exact H.
      * destruct (IH s1 Hl) as [s' [Hm [Hd' Hesc]]].
        exists s'. split; [exact Hm |]. split; [exact Hd' |].
        intros H. destruct (Hesc H) as [H1 | H1]; [left; exact H1 | right; exact H1].
Qed.

(** X12.  Started with a direction of length one, the physics loop
    returns, with a direction of length one; it reports [escaped = false]
    only for a ray that ended inside the capture radius; and a ray that
    starts inside is returned at once, unmoved. *)
Theorem physics_loop_returns (ro rd : vec3) :
  length rd = 1 ->
  exists s,
    physics_loop ro rd = Ok s /\
    length (dir s) = 1 /\
    (escaped s = false -> length (pos s) < BH_RADIUS) /\
    (length ro < BH_RADIUS -> s = mkRay ro rd false).
Proof.
  intros Hd. unfold physics_loop.
  destruct (march_total MAX_STEPS (mkRay ro rd true) Hd) as [s [Hm [Hl Hesc]]].
  exists s. split; [exact Hm |]. split; [exact Hl |]. split.
  - intros H. destruct (Hesc H) as [H1 | H1]; [discriminate H1 | exact H1].
  - intros Hr. unfold MAX_STEPS in Hm. cbn [march] in Hm.
    unfold march_step in Hm. cbn [pos dir escaped] in Hm.
    destruct (Rlt_dec (length ro) BH_RADIUS); [| contradiction].
    cbn [bind] in Hm. congruence.
Qed.

End Marching.

Section CameraFacts.

Import RayTracing Shader.

(** ** The camera *)

Lemma clamp_bounds (x lo hi : R) : lo <= hi -> lo <= clamp x lo hi <= hi.
Proof.
  intros H. unfold clamp, Rmin, Rmax.
  destruct (Rle_dec x lo); destruct (Rle_dec _ hi); lra.
Qed.

Lemma cos_clamped (x : R) : 0 < cos (clamp x (-1.5) 1.5).
Proof.
  pose proof (clamp_bounds x (-1.5) 1.5) as H.
  pose proof PI2_3_2 as Hpi.
  apply cos_gt_0; lra.
Qed.

Lemma sin_cos_square (x : R) : sin x * sin x + cos x * cos x = 1.
Proof. pose proof (sin2_cos2 x) as H. unfold Rsqr in H. exact H. Qed.

Lemma orbit_dot (c ax ay : R) :
  let ro := mkVec3 (c * sin ax * cos ay) (c * sin ay) (c * cos ax * cos ay) in
  dot ro ro = c * c.
Proof.
  cbv zeta. unfold dot. cbn [X Y Zc].
  replace (c * sin ax * cos ay * (c * sin ax * cos ay) + c * sin ay * (c * sin ay)
           + c * cos ax * cos ay * (c * cos ax * cos ay))
    with (c * c * ((sin ax * sin ax + cos ax * cos ax) * (cos ay * cos ay)
                   + sin ay * sin ay)) by ring.
  rewrite sin_cos_square.
  replace (1 * (cos ay * cos ay) + sin ay * sin ay)
    with (sin ay * sin ay + cos ay * cos ay) by ring.
  rewrite sin_cos_square. ring.
Qed.

Lemma basis_dot (a b c : R) (u v w : vec3) :
  dot (vadd (vadd (smul a u) (smul b v)) (smul c w))
      (vadd (vadd (smul a u) (smul b v)) (smul c w)) =
  a * a * dot u u + b * b * dot v v + c * c * dot w w
  + 2 * a * b * dot u v + 2 * a * c * dot u w + 2 * b * c * dot v w.
Proof. unfold dot, vadd, smul. cbn [X Y Zc]. ring. Qed.

(** The camera set-up in terms of dot products: the square of the
    camera distance, and a direction of square length one. *)
Lemma camera_basis (gl_FragCoord : R * R) (u : uniforms) :
  fst (u_resolution u) <> 0 -> snd (u_resolution u) <> 0 -> u_zoom u <> 0 ->
  exists ro rd,
    camera gl_FragCoord u = Ok (ro, rd) /\
    dot ro ro = 12 / u_zoom u * (12 / u_zoom u) /\
    dot rd rd = 1.
Proof.
  intros Hrx Hry Hz. unfold camera.
  rewrite !(div_ok _ (snd (u_resolution u))) by exact Hry. cbn [bind].
  rewrite (div_ok _ (u_zoom u)) by exact Hz. cbn [bind].
  rewrite (div_ok _ (fst (u_resolution u))) by exact Hrx. cbn [bind].
  replace 12.0 with 12 by lra.
  set (c := 12 / u_zoom u).
  set (ax := fst (u_mouse u) / fst (u_resolution u) * 6.28).
  set (ay := clamp ((snd (u_mouse u) / snd (u_resolution u) - 0.5) * 3.0) (-1.5) 1.5).
  set (uvx := (fst gl_FragCoord - 0.5 * fst (u_resolution u)) / snd (u_resolution u)).
  set (uvy := (snd gl_FragCoord - 0.5 * snd (u_resolution u)) / snd (u_resolution u)).
  set (ro := mkVec3 (c * sin ax * cos ay) (c * sin ay) (c * cos ax * cos ay)).
  replace 0.0 with 0 by lra. replace 1.0 with 1 by lra.
  assert (Hc : c <> 0).
  { unfold c. intros H0. apply (Rmult_eq_compat_r (u_zoom u)) in H0.
    replace (12 / u_zoom u * u_zoom u) with 12 in H0 by (field; exact Hz). lra. }
  assert (Hcy : 0 < cos ay) by apply cos_clamped.
  pose proof (orbit_dot c ax ay) as Hro. cbv zeta in Hro. fold ro in Hro.
  (* ww *)
  set (v0 := vsub (mkVec3 0 0 0) ro).
  assert (Hv0 : dot v0 v0 = c * c)
    by (rewrite <- Hro; unfold v0, dot, vsub; cbn [X Y Zc]; ring).
  assert (Hv0pos : 0 < dot v0 v0) by (rewrite Hv0; nra).
  destruct (normalize_unit v0 Hv0pos) as [ww [Hww [Hwu [Hwd Hwe]]]].
  rewrite Hww. cbn [bind].
  (* uu *)
  set (up := mkVec3 0 1 0).
  assert (Hwy : dot ww up * dot ww up = sin ay * sin ay).
  { rewrite Hwd. pose proof (length_squared v0) as Hl. rewrite Hv0 in Hl.
    pose proof (length_nonzero v0 Hv0pos) as Hl0.
    replace (dot v0 up) with (- (c * sin ay))
      by (unfold v0, up, dot, vsub, ro; cbn [X Y Zc]; ring).
    replace (- (c * sin ay) / length v0 * (- (c * sin ay) / length v0))
      with (c * c * (sin ay * sin ay) / (length v0 * length v0))
      by (field; exact Hl0).
    rewrite Hl. field. exact Hc. }
  assert (Hc1 : dot (cross ww up) (cross ww up) = cos ay * cos ay).
  { rewrite lagrange, Hwu, Hwy.
    replace (dot up up) with 1 by (unfold up, dot; cbn [X Y Zc]; ring).
    pose proof (sin_cos_square ay). lra. }
  assert (Hc1pos : 0 < dot (cross ww up) (cross ww up)) by (rewrite Hc1; nra).
  destruct (normalize_unit _ Hc1pos) as [uu [Huu [Huu1 [Hud _]]]].
  rewrite Huu. cbn [bind].
  assert (Huw : dot uu ww = 0).
  { rewrite Hud. destruct (cross_orthogonal ww up) as [-> _]. unfold Rdiv. ring. }
  (* vv *)
  assert (Hc2 : dot (cross uu ww) (cross uu ww) = 1)
    by (rewrite lagrange, Huu1, Hwu, Huw; ring).
  assert (Hc2pos : 0 < dot (cross uu ww) (cross uu ww)) by (rewrite Hc2; lra).
  destruct (normalize_unit _ Hc2pos) as [vv [Hvv [Hvv1 [Hvd _]]]].
  rewrite Hvv. cbn [bind].
  assert (Hvu : dot vv uu = 0).
  { rewrite Hvd. destruct (cross_orthogonal uu ww) as [-> _]. unfold Rdiv. ring. }
  assert (Hvw : dot vv ww = 0).
  { rewrite Hvd. destruct (cross_orthogonal uu ww) as [_ ->]. unfold Rdiv. ring. }
  (* rd *)
  assert (Hraw : 0 < dot (vadd (vadd (smul uvx uu) (smul uvy vv)) (smul 1.2 ww))
                         (vadd (vadd (smul uvx uu) (smul uvy vv)) (smul 1.2 ww))).
  { rewrite basis_dot, Huu1, Hvv1, Hwu, Huw, Hvw, (dot_comm uu vv), Hvu. nra. }
  destruct (normalize_unit _ Hraw) as [rd [Hrd [Hrd1 _]]].
  rewrite Hrd. cbn [bind].
  exists ro, rd. split; [reflexivity |]. split; [exact Hro | exact Hrd1].
Qed.


(** X13.  With a resolution that has no zero component and a non-zero
    zoom the camera set-up never divides by zero: the camera sits at
    distance [|12 / u_zoom|] from the hole and the ray direction has
    length one, for every fragment and every mouse position. *)
Theorem camera_returns (gl_FragCoord : R * R) (u : uniforms) :
  fst (u_resolution u) <> 0 -> snd (u_resolution u) <> 0 -> u_zoom u <> 0 ->
  exists ro rd,
    camera gl_FragCoord u = Ok (ro, rd) /\
    length ro = Rabs (12 / u_zoom u) /\
    length rd = 1.
Proof.
  intros Hrx Hry Hz.
  destruct (camera_basis gl_FragCoord u Hrx Hry Hz) as [ro [rd [Hc [Hro Hrd]]]].
  exists ro, rd. split; [exact Hc |]. split.
  - rewrite length_dot, Hro. apply sqrt_Rsqr_abs.
  - apply length_unit, Hrd.
Qed.

End CameraFacts.

(** ** The fragment colour *)

(** X14.  Under the same conditions the camera set-up returns a ray
    [(ro, rd)], the physics loop started from it returns a final ray [s],
    and [main] returns for the fragment the colour read off [s] with alpha
    1: black when [s] ended inside the capture radius, otherwise the sky
    in the direction of [s], which has length one. *)
Theorem fragment_returns (getSkybox : RayTracing.vec3 -> RayTracing.vec3)
  (gl_FragCoord : R * R) (u : Shader.uniforms) :
  fst (Shader.u_resolution u) <> 0 -> snd (Shader.u_resolution u) <> 0 ->
  Shader.u_zoom u <> 0 ->
  exists ro rd s,
    Shader.camera gl_FragCoord u = Ok (ro, rd) /\
    RayTracing.physics_loop ro rd = Ok s /\
    Shader.main getSkybox gl_FragCoord u =
      Ok (if RayTracing.escaped s then getSkybox (RayTracing.dir s)
          else RayTracing.mkVec3 0.0 0.0 0.0, 1.0) /\
    RayTracing.length (RayTracing.dir s) = 1 /\
    (RayTracing.escaped s = false ->
     RayTracing.length (RayTracing.pos s) < RayTracing.BH_RADIUS).
Proof.
  intros Hx Hy Hz. unfold Shader.main.
  destruct (camera_basis gl_FragCoord u Hx Hy Hz) as [ro [rd [Hc [_ Hrd]]]].
  rewrite Hc. cbn [bind]. unfold RayTracing.physics_loop.
  destruct (march_total RayTracing.MAX_STEPS (RayTracing.mkRay ro rd true)
              (length_unit rd Hrd)) as [s [Hp [Hl He]]].
  exists ro, rd, s. split; [reflexivity |]. split; [exact Hp |].
  rewrite Hp. cbn [bind]. split; [reflexivity |]. split; [exact Hl |].
  intros H. destruct (He H) as [H1 | H1]; [discriminate H1 | exact H1].
Qed.

(** ** The window loop *)

Section ViewerFacts.

Import Viewer.

Lemma handle_event_consistent (s : state) (e : event) :
  consistent s -> consistent (handle_event s e).
Proof.
  unfold consistent. intros [[Hz1 Hz2] [Hu Hr]].
  destruct e as [| w h | b | b | rel |]; cbn [handle_event].
  - cbn. repeat split; assumption.
  - cbn. repeat split; assumption.
  - destruct (b =? 1)%Z, (b =? 4)%Z, (b =? 5)%Z;
      cbn [set_dragging set_zoom set_u_zoom zoom u_zoom u_resolution WIDTH HEIGHT];
      (split; [| split; [reflexivity | exact Hr]]);
      unfold Rmin, Rmax;
      repeat match goal with |- context [Rle_dec ?a ?b] => destruct (Rle_dec a b) end;
      lra.
  - destruct (b =? 1)%Z; cbn; repeat split; assumption.
  - destruct (dragging s); cbn; repeat split; assumption.
  - repeat split; assumption.
Qed.

Lemma handle_events_consistent (events : list event) :
  forall s : state, consistent s -> consistent (handle_events s events).
Proof.
  unfold handle_events.
  induction events as [| e events IH]; intros s H; [exact H |].
  cbn [fold_left]. apply IH, handle_event_consistent, H.
Qed.

Lemma main_loop_consistent (frames : list (list event)) :
  forall s : state, consistent s -> consistent (main_loop s frames).
Proof.
  induction frames as [| events frames IH]; intros s H; [exact H |].
  cbn [main_loop].
  pose proof (handle_events_consistent events s H) as H1.
  destruct (running (handle_events s events)); [apply IH; exact H1 | exact H1].
Qed.

Lemma init_consistent : consistent init.
Proof. unfold consistent. cbn. split; [lra |]. split; reflexivity. Qed.

(** X15.  Through any frames of events the zoom stays within
    [0.1, 10], the uniform [u_zoom] equals it, and [u_resolution] equals
    the window size [(WIDTH, HEIGHT)]. *)
Theorem zoom_stays_in_range (frames : list (list event)) :
  let s := main_loop init frames in
  0.1 <= zoom s <= 10 /\ u_zoom s = zoom s /\
  u_resolution s = (WIDTH s, HEIGHT s).
Proof.
  intros s.
  destruct (main_loop_consistent frames init init_consistent) as [Hz [Hu Hr]].
  fold s in Hz, Hu, Hr. split; [exact Hz |]. split; [exact Hu | exact Hr].
Qed.

Lemma handle_event_mouse (s : state) (e : event) :
  dragging s = false -> e <> MOUSEBUTTONDOWN 1 ->
  dragging (handle_event s e) = false /\
  u_mouse (handle_event s e) = u_mouse s /\
  mouse_x (handle_event s e) = mouse_x s /\
  mouse_y (handle_event s e) = mouse_y s.
Proof.
  intros Hd He.
  destruct e as [| w h | b | b | rel |]; cbn [handle_event];
    try (repeat split; assumption).
  - destruct (b =? 1)%Z eqn:E.
    + apply Z.eqb_eq in E. subst b. contradiction He. reflexivity.
    + destruct (b =? 4)%Z, (b =? 5)%Z; cbn; repeat split; assumption.
  - destruct (b =? 1)%Z; cbn; repeat split; assumption || reflexivity.
  - rewrite Hd. repeat split; assumption.
Qed.

(** X16.  While the left button is not held and is not pressed, no event
    changes the mouse position or the uniform [u_mouse] that turns the
    camera. *)
Theorem camera_moves_only_while_dragging (events : list event) (s : state) :
  dragging s = false ->
  Forall (fun e => e <> MOUSEBUTTONDOWN 1) events ->
  u_mouse (handle_events s events) = u_mouse s /\
  mouse_x (handle_events s events) = mouse_x s /\
  mouse_y (handle_events s events) = mouse_y s.
Proof.
  unfold handle_events. intros Hd Hev. revert s Hd.
  induction Hev as [| e events He Hrest IH]; intros s Hd; [repeat split |].
  cbn [fold_left].
  destruct (handle_event_mouse s e Hd He) as [Hd' [Hu [Hx Hy]]].
  destruct (IH _ Hd') as [Hu' [Hx' Hy']].
  repeat split; congruence.
Qed.

Lemma handle_event_resolution (s : state) (e : event) :
  proper e ->
  fst (u_resolution s) <> 0 /\ snd (u_resolution s) <> 0 ->
  fst (u_resolution (handle_event s e)) <> 0 /\
  snd (u_resolution (handle_event s e)) <> 0.
Proof.
  intros Hp H.
  destruct e as [| w h | b | b | rel |]; cbn [handle_event];
    try exact H.
  - exact Hp.
  - destruct (b =? 1)%Z, (b =? 4)%Z, (b =? 5)%Z; exact H.
  - destruct (b =? 1)%Z; exact H.
  - destruct (dragging s); exact H.
Qed.

Lemma main_loop_resolution (frames : list (list event)) :
  Forall (Forall proper) frames ->
  forall s : state,
    fst (u_resolution s) <> 0 /\ snd (u_resolution s) <> 0 ->
    fst (u_resolution (main_loop s frames)) <> 0 /\
    snd (u_resolution (main_loop s frames)) <> 0.
Proof.
  intros Hf. induction Hf as [| events frames He Hrest IH]; intros s H; [exact H |].
  cbn [main_loop].
  assert (H1 : fst (u_resolution (handle_events s events)) <> 0 /\
               snd (u_resolution (handle_events s events)) <> 0).
  { unfold handle_events. clear IH Hrest. revert s H.
    induction He as [| e events Hp Hps IHe]; intros s H; [exact H |].
    cbn [fold_left]. apply IHe, handle_event_resolution; assumption. }
  destruct (running (handle_events s events)); [apply IH; exact H1 | exact H1].
Qed.

(** X17.  After any frames of events whose resizes have no zero side,
    the draw call returns a colour for every fragment, and the camera is
    between 1.2 and 120 from the hole, never inside the capture radius. *)
Theorem every_fragment_is_drawn
  (getSkybox : RayTracing.vec3 -> RayTracing.vec3)
  (frames : list (list event)) (gl_FragCoord : R * R) :
  Forall (Forall proper) frames ->
  let s := main_loop init frames in
  (exists col, render getSkybox s gl_FragCoord = Ok (col, 1.0)) /\
  exists ro rd,
    Shader.camera gl_FragCoord (uniforms_of s) = Ok (ro, rd) /\
    1.2 <= RayTracing.length ro <= 120 /\
    ~ RayTracing.length ro < RayTracing.BH_RADIUS.
Proof.
  intros Hf s.
  destruct (main_loop_consistent frames init init_consistent) as [[Hz1 Hz2] [Hu _]].
  fold s in Hz1, Hz2, Hu.
  assert (Hres : fst (u_resolution s) <> 0 /\ snd (u_resolution s) <> 0)
    by (apply main_loop_resolution; [exact Hf | cbn; split; lra]).
  destruct Hres as [Hx Hy].
  assert (Hz : Shader.u_zoom (uniforms_of s) <> 0) by (cbn; rewrite Hu; lra).
  split.
  - unfold render, Shader.main.
    destruct (camera_basis gl_FragCoord (uniforms_of s) Hx Hy Hz)
      as [ro [rd [Hc [_ Hrd]]]].
    rewrite Hc. cbn [bind]. unfold RayTracing.physics_loop.
    destruct (march_total RayTracing.MAX_STEPS (RayTracing.mkRay ro rd true)
                (length_unit rd Hrd)) as [r [Hp _]].
    rewrite Hp. cbn [bind]. eexists. reflexivity.
  - destruct (camera_basis gl_FragCoord (uniforms_of s) Hx Hy Hz)
      as [ro [rd [Hc [Hro _]]]].
    exists ro, rd. split; [exact Hc |].
    assert (Hl : RayTracing.length ro = Rabs (12 / Shader.u_zoom (uniforms_of s)))
      by (rewrite length_dot, Hro; apply sqrt_Rsqr_abs).
    cbn [uniforms_of Shader.u_zoom] in Hl. rewrite Hu in Hl.
    assert (Hpos : 0 < 12 / zoom s) by (apply Rdiv_lt_0_compat; lra).
    rewrite Rabs_right in Hl by lra. rewrite Hl.
    assert (Hb : 1.2 <= 12 / zoom s <= 120).
    { split.
      - apply Rmult_le_reg_r with (zoom s); [lra |].
        replace (12 / zoom s * zoom s) with 12 by (field; lra). lra.
      - apply Rmult_le_reg_r with (zoom s); [lra |].
        replace (12 / zoom s * zoom s) with 12 by (field; lra). lra. }
    split; [exact Hb |]. unfold RayTracing.BH_RADIUS. lra.
Qed.

End ViewerFacts.

(** ** Instances of the properties above *)

Lemma spawning_cadence_witness :
  (S (frame_count Instances.before_spawn) mod SPAWN_RATE = 0)%nat /\
  particles_schwarz (spawning Instances.before_spawn) = spawned false 0 /\
  particles_kerr (spawning Instances.before_spawn) = spawned true 0.9.
Proof.
  assert (H : (S (frame_count Instances.before_spawn) mod SPAWN_RATE = 0)%nat)
    by reflexivity.
  split; [exact H |].
  destruct (spawning_cadence Instances.before_spawn) as [_ [_ [_ [Hyes _]]]].
  exact (Hyes H).
Defined.

Lemma quit_ends_after_the_frame_witness :
  In QUIT [KEYDOWN K_UP; QUIT] /\
  0 < mass SimulationState_init /\
  main_loop SimulationState_init ([KEYDOWN K_UP; QUIT] :: [[KEYDOWN K_r]]) =
    updates (spawning (fst (handle_events SimulationState_init true
                              [KEYDOWN K_UP; QUIT]))) /\
  (exists st', main_loop SimulationState_init
                 ([KEYDOWN K_UP; QUIT] :: [[KEYDOWN K_r]]) = Ok st' /\
               frame_count st' = 1%nat) /\
  main_loop SimulationState_init ([[]] ++ [KEYDOWN K_UP; QUIT] :: [[KEYDOWN K_r]]) =
  main_loop SimulationState_init ([[]] ++ [[KEYDOWN K_UP; QUIT]]).
Proof.
  assert (H : In QUIT [KEYDOWN K_UP; QUIT]) by (right; left; reflexivity).
  assert (Hm : 0 < mass SimulationState_init) by (cbn; lra).
  split; [exact H |]. split; [exact Hm |].
  destruct (quit_ends_after_the_frame SimulationState_init [[]]
              [KEYDOWN K_UP; QUIT] [[KEYDOWN K_r]] H) as [H1 [H2 H3]].
  split; [exact H1 |]. split; [exact (H2 Hm) | exact H3].
Defined.

Lemma axis_photon_is_captured_witness :
  (192 <= length Instances.long_run)%nat /\
  Forall (fun c => 10 <= call_mass c <= 100) Instances.long_run /\
  exists self',
    calls (Photon_init 0 WIDTH false 0) Instances.long_run = Returned self' /\
    active self' = false /\ dead self' = false /\ y_raw self' = 0.
Proof.
  assert (H1 : (192 <= length Instances.long_run)%nat)
    by (unfold Instances.long_run; rewrite repeat_length; apply Nat.le_refl).
  assert (H2 : Forall (fun c => 10 <= call_mass c <= 100) Instances.long_run).
  { unfold Instances.long_run. apply Forall_forall. intros c Hc.
    apply repeat_spec in Hc. subst c. cbn. lra. }
  split; [exact H1 |]. split; [exact H2 |].
  exact (axis_photon_is_captured Instances.long_run H1 H2).
Defined.

Lemma kerr_axis_x : x_raw Instances.kerr_axis = -400.
Proof. cbn. unfold WIDTH. lra. Qed.

Lemma kerr_drags_off_the_axis_witness :
  active Instances.kerr_axis = true /\ is_kerr Instances.kerr_axis = true /\
  hole_spin Instances.kerr_axis <> 0 /\ y_raw Instances.kerr_axis = 0 /\
  snd (vel Instances.kerr_axis) = 0 /\ 0 < 30 /\
  2 * 30 <= Rabs (x_raw Instances.kerr_axis) /\
  exists self',
    update Instances.kerr_axis 30 0 0 = Returned self' /\
    0 < x_raw Instances.kerr_axis * hole_spin Instances.kerr_axis * snd (vel self').
Proof.
  assert (H1 : active Instances.kerr_axis = true) by reflexivity.
  assert (H2 : is_kerr Instances.kerr_axis = true) by reflexivity.
  assert (H3 : hole_spin Instances.kerr_axis <> 0) by (cbn; lra).
  assert (H4 : y_raw Instances.kerr_axis = 0) by reflexivity.
  assert (H5 : snd (vel Instances.kerr_axis) = 0) by (cbn; lra).
  assert (H6 : 0 < 30) by lra.
  assert (H7 : 2 * 30 <= Rabs (x_raw Instances.kerr_axis))
    by (rewrite kerr_axis_x, Rabs_left; lra).
  repeat (split; [assumption |]).
  destruct (kerr_drags_off_the_axis Instances.kerr_axis 30 0 0 H1 H2 H3 H4 H5 H6 H7)
    as [self' [Hu [_ [_ Hs]]]].
  exists self'. split; assumption.
Defined.

Lemma unit_tangent_ray :
  RayTracing.length (RayTracing.dir Examples.tangent_ray) = 1.
Proof.
  apply length_unit. unfold Shader.dot. cbn. ring.
Qed.

Lemma march_step_keeps_unit_direction_witness :
  RayTracing.length (RayTracing.dir Examples.tangent_ray) = 1 /\
  exists s' f,
    RayTracing.march_step Examples.tangent_ray = Ok (s', f) /\
    RayTracing.length (RayTracing.dir s') = 1.
Proof.
  split; [exact unit_tangent_ray |].
  destruct (march_step_keeps_unit_direction Examples.tangent_ray unit_tangent_ray)
    as [s' [f [Hs [Hl _]]]].
  exists s', f. split; assumption.
Defined.

Lemma physics_loop_returns_witness :
  RayTracing.length (RayTracing.dir Examples.tangent_ray) = 1 /\
  exists s,
    RayTracing.physics_loop (RayTracing.pos Examples.tangent_ray)
                            (RayTracing.dir Examples.tangent_ray) = Ok s /\
    RayTracing.length (RayTracing.dir s) = 1.
Proof.
  split; [exact unit_tangent_ray |].
  destruct (physics_loop_returns (RayTracing.pos Examples.tangent_ray)
              (RayTracing.dir Examples.tangent_ray) unit_tangent_ray)
    as [s [Hp [Hl _]]].
  exists s. split; assumption.
Defined.

Lemma first_draw_proper :
  fst (Shader.u_resolution Instances.first_draw) <> 0 /\
  snd (Shader.u_resolution Instances.first_draw) <> 0 /\
  Shader.u_zoom Instances.first_draw <> 0.
Proof. cbn. repeat split; lra. Qed.

Lemma camera_returns_witness :
  fst (Shader.u_resolution Instances.first_draw) <> 0 /\
  snd (Shader.u_resolution Instances.first_draw) <> 0 /\
  Shader.u_zoom Instances.first_draw <> 0 /\
  exists ro rd,
    Shader.camera (640, 360) Instances.first_draw = Ok (ro, rd) /\
    RayTracing.length ro = Rabs (12 / 1) /\ RayTracing.length rd = 1.
Proof.
  destruct first_draw_proper as [H1 [H2 H3]].
  repeat (split; [assumption |]).
  exact (camera_returns (640, 360) Instances.first_draw H1 H2 H3).
Defined.

Lemma fragment_returns_witness :
  fst (Shader.u_resolution Instances.first_draw) <> 0 /\
  snd (Shader.u_resolution Instances.first_draw) <> 0 /\
  Shader.u_zoom Instances.first_draw <> 0 /\
  exists ro rd s,
    Shader.camera (640, 360) Instances.first_draw = Ok (ro, rd) /\
    RayTracing.physics_loop ro rd = Ok s /\
    Shader.main (fun d => d) (640, 360) Instances.first_draw =
      Ok (if RayTracing.escaped s then RayTracing.dir s
          else RayTracing.mkVec3 0.0 0.0 0.0, 1.0).
Proof.
  destruct first_draw_proper as [H1 [H2 H3]].
  repeat (split; [assumption |]).
  destruct (fragment_returns (fun d => d) (640, 360) Instances.first_draw H1 H2 H3)
    as [ro [rd [s [Hc [Hp [Hm _]]]]]].
  exists ro, rd, s. split; [exact Hc |]. split; [exact Hp | exact Hm].
Defined.

Lemma camera_moves_only_while_dragging_witness :
  Viewer.dragging Viewer.init = false /\
  Forall (fun e => e <> Viewer.MOUSEBUTTONDOWN 1) Instances.idle_events /\
  Viewer.u_mouse (Viewer.handle_events Viewer.init Instances.idle_events) =
    Viewer.u_mouse Viewer.init /\
  Viewer.mouse_x (Viewer.handle_events Viewer.init Instances.idle_events) =
    Viewer.mouse_x Viewer.init /\
  Viewer.mouse_y (Viewer.handle_events Viewer.init Instances.idle_events) =
    Viewer.mouse_y Viewer.init.
Proof.
  assert (H1 : Viewer.dragging Viewer.init = false) by reflexivity.
  assert (H2 : Forall (fun e => e <> Viewer.MOUSEBUTTONDOWN 1) Instances.idle_events)
    by (repeat constructor; discriminate).
  split; [exact H1 |]. split; [exact H2 |].
  exact (camera_moves_only_while_dragging Instances.idle_events Viewer.init H1 H2).
Defined.

Lemma every_fragment_is_drawn_witness :
  Forall (Forall Viewer.proper) Instances.resized /\
  exists col,
    Viewer.render (fun d => d) (Viewer.main_loop Viewer.init Instances.resized)
                  (400, 300) = Ok (col, 1.0).
Proof.
  assert (H : Forall (Forall Viewer.proper) Instances.resized).
  { repeat constructor; cbn; lra. }
  split; [exact H |].
  exact (proj1 (every_fragment_is_drawn (fun d => d) Instances.resized (400, 300) H)).
Defined.
